(** * The Menu state machine of [@headlessui-react] and [compareNumbers]

    A shallow embedding of the reducer table of [components/menu/menu.tsx]
    ([reducers], [stateReducer], [useMenuContext]) and of the helper
    [compareNumbers], followed by the properties stated about them.

    Modelling conventions.
    - JavaScript variables hold references.  Objects that are compared with
      [===] or handed to [indexOf] (item records, [MutableRefObject]s, the
      [shouldClose] closures) are therefore addresses ([loc]) into a [Heap];
      the heap holds what each address contains, one store per kind of
      object.  Two occurrences of the same address are the same object.
      State objects themselves are values: that a reducer hands back the
      very object it was given shows as an equal state.
    - Array indices are [Z], because [findIndex] and [indexOf] answer [-1].
    - Strings are [string]s, sequences of code units.  What JavaScript
      computes from the characters they encode, [s.toLowerCase()] and
      [s.length], is not fixed here: it is the interface [JsString], and
      every theorem holds for whatever these two functions are.
    - [number] is IEEE 754 binary64, Rocq's primitive [float]. *)

From Stdlib Require Import ZArith Floats.
From stdpp Require Import base decidable option list strings functions.

Local Open Scope string_scope.
Local Open Scope Z_scope.

(** ** JavaScript array and string primitives used by the reducers *)

Section JsArray.
Context {A : Type}.

(** [arr.findIndex(p)]: the first index whose element satisfies [p], or [-1]. *)
Definition findIndex (p : A → bool) (arr : list A) : Z :=
  match list_find (λ x, p x = true) arr with
  | Some (i, _) => Z.of_nat i
  | None => -1
  end.

(** [arr[i]]: [None] stands for [undefined] (index negative or past the end). *)
Definition at_index (arr : list A) (i : Z) : option A :=
  if i <? 0 then None else arr !! Z.to_nat i.

(** [arr.splice(start, 1)]: a negative [start] counts from the end, clamped
    at [0]; a [start] past the end removes nothing. *)
Definition splice_one (start : Z) (arr : list A) : list A :=
  let len := Z.of_nat (length arr) in
  let from := if start <? 0 then Z.max (len + start) 0 else Z.min start len in
  delete (Z.to_nat from) arr.
End JsArray.

(** The address of an object. *)
Definition loc := nat.

(** [arr.indexOf(x)] on an array of objects compares addresses; looking for
    [undefined] (here [None]) in an array of objects finds nothing. *)
Definition indexOf (arr : list loc) (x : option loc) : Z :=
  match x with
  | Some l => findIndex (λ a, Nat.eqb a l) arr
  | None => -1
  end.

(** [c.toLowerCase()] on one character: [A]..[Z] move to [a]..[z]. *)
Definition lower_ascii (c : Ascii.ascii) : Ascii.ascii :=
  let n := Ascii.N_of_ascii c in
  if ((65 <=? n) && (n <=? 90))%N then Ascii.ascii_of_N (n + 32) else c.

(** [s.toLowerCase()] and [s.length] of the JavaScript engine. *)
Class JsString := {
  toLowerCase : string → string;
  code_units : string → nat;
}.

(** What the engine does on strings of ASCII characters, for evaluation. *)
Fixpoint ascii_toLowerCase (s : string) : string :=
  match s with
  | EmptyString => EmptyString
  | String c s' => String (lower_ascii c) (ascii_toLowerCase s')
  end.

Definition ascii_strings : JsString :=
  {| toLowerCase := ascii_toLowerCase; code_units := String.length |}.

(** [s.startsWith(q)]. *)
Definition startsWith (s q : string) : bool := String.prefix q s.

(** ** Data model *)

Inductive MenuStates := Open | Closed.

(** The content ([.current]) of a [MenuItemDataRef]. *)
Record MenuItemData := { textValue : option string; disabled : bool }.

(** An element of [StateDefinition.items]. *)
Record Item := { id : string; dataRef : loc }.

Record StateDefinition := {
  menuState : MenuStates;
  buttonRef : loc;
  itemsRef : loc;
  items : list loc;
  searchQuery : string;
  activeItemIndex : option Z;
  shouldClose : loc;
}.

(** [Focus] together with the [id] that [Focus.Specific] carries. *)
Inductive Focus :=
| First | Previous | Next | Last | Specific (item_id : string) | Nothing.

Inductive MenuActions :=
| CloseMenu
| OpenMenu
| GoToItem (focus : Focus)
| Search (value : string)
| ClearSearch
| RegisterItem (item_id : string) (item_ref : loc)
| UnregisterItem (item_id : string)
| SetShouldClose (pred : option loc).

(** The resolver bag handed to [calculateActiveIndex]. *)
Record Resolvers := {
  resolveItems : unit → list loc;
  resolveActiveIndex : unit → option Z;
  resolveId : loc → string;
  resolveDisabled : loc → bool;
}.

#[global] Instance MenuStates_eq_dec : EqDecision MenuStates.
Proof. solve_decision. Defined.

Section Menu.
(** [Event | SyntheticEvent] comes from the DOM and React typings. *)
Context {Event : Type} `{!JsString}.

Definition ShouldClose := Event → bool.

Record Heap := {
  next : loc;                      (* the next address to be allocated *)
  item_at : loc → Item;            (* item records *)
  current : loc → MenuItemData;    (* [ref.current] of each data ref *)
  fn_at : loc → ShouldClose;       (* closures *)
}.

(** [{ id, dataRef }]: a fresh item record. *)
Definition alloc_item (h : Heap) (it : Item) : loc * Heap :=
  (next h,
   {| next := S (next h); item_at := <[next h := it]> (item_at h);
      current := current h; fn_at := fn_at h |}).

(** [() => ...]: a fresh closure. *)
Definition alloc_fn (h : Heap) (f : ShouldClose) : loc * Heap :=
  (next h,
   {| next := S (next h); item_at := item_at h;
      current := current h; fn_at := <[next h := f]> (fn_at h) |}).

(** *** The reducer table *)

(** [reducers[MenuActionTypes.CloseMenu]] *)
Definition reduce_CloseMenu (state : StateDefinition) : StateDefinition :=
  if decide (menuState state = Closed) then state
  else {| menuState := Closed; buttonRef := buttonRef state;
          itemsRef := itemsRef state; items := items state;
          searchQuery := searchQuery state; activeItemIndex := None;
          shouldClose := shouldClose state |}.

(** [reducers[MenuActionTypes.OpenMenu]] *)
Definition reduce_OpenMenu (state : StateDefinition) : StateDefinition :=
  if decide (menuState state = Open) then state
  else {| menuState := Open; buttonRef := buttonRef state;
          itemsRef := itemsRef state; items := items state;
          searchQuery := searchQuery state;
          activeItemIndex := activeItemIndex state;
          shouldClose := shouldClose state |}.

Section WithCalculateActiveIndex.
(** [utils/calculate-active-index] is imported by the component. *)
Variable calculateActiveIndex : Focus → Resolvers → option Z.

(** [reducers[MenuActionTypes.GoToItem]] *)
Definition reduce_GoToItem (h : Heap) (state : StateDefinition)
    (action : Focus) : StateDefinition :=
  let activeItemIndex' :=
    calculateActiveIndex action
      {| resolveItems := λ _, items state;
         resolveActiveIndex := λ _, activeItemIndex state;
         resolveId := λ item, id (item_at h item);
         resolveDisabled := λ item, disabled (current h (dataRef (item_at h item))) |} in
  if (String.eqb (searchQuery state) "" &&
      bool_decide (activeItemIndex state = activeItemIndex'))%bool
  then state
  else {| menuState := menuState state; buttonRef := buttonRef state;
          itemsRef := itemsRef state; items := items state;
          searchQuery := ""; activeItemIndex := activeItemIndex';
          shouldClose := shouldClose state |}.
End WithCalculateActiveIndex.

(** The predicate handed to [findIndex] by the [Search] reducer:
    [textValue?.startsWith(searchQuery) && !disabled]. *)
Definition search_hit (h : Heap) (query : string) (item : loc) : bool :=
  match textValue (current h (dataRef (item_at h item))) with
  | Some t => startsWith t query && negb (disabled (current h (dataRef (item_at h item))))
  | None => false
  end.

(** [reducers[MenuActionTypes.Search]] *)
Definition reduce_Search (h : Heap) (state : StateDefinition)
    (value : string) : StateDefinition :=
  let searchQuery' := searchQuery state +:+ toLowerCase value in
  let match_ := findIndex (search_hit h searchQuery') (items state) in
  if ((match_ =? -1) || bool_decide (Some match_ = activeItemIndex state))%bool
  then {| menuState := menuState state; buttonRef := buttonRef state;
          itemsRef := itemsRef state; items := items state;
          searchQuery := searchQuery';
          activeItemIndex := activeItemIndex state;
          shouldClose := shouldClose state |}
  else {| menuState := menuState state; buttonRef := buttonRef state;
          itemsRef := itemsRef state; items := items state;
          searchQuery := searchQuery'; activeItemIndex := Some match_;
          shouldClose := shouldClose state |}.

(** [reducers[MenuActionTypes.ClearSearch]] *)
Definition reduce_ClearSearch (state : StateDefinition) : StateDefinition :=
  if String.eqb (searchQuery state) "" then state
  else {| menuState := menuState state; buttonRef := buttonRef state;
          itemsRef := itemsRef state; items := items state;
          searchQuery := ""; activeItemIndex := activeItemIndex state;
          shouldClose := shouldClose state |}.

(** [reducers[MenuActionTypes.RegisterItem]] *)
Definition reduce_RegisterItem (h : Heap) (state : StateDefinition)
    (item_id : string) (item_ref : loc) : StateDefinition * Heap :=
  let '(record, h') := alloc_item h {| id := item_id; dataRef := item_ref |} in
  ({| menuState := menuState state; buttonRef := buttonRef state;
      itemsRef := itemsRef state; items := items state ++ [record];
      searchQuery := searchQuery state;
      activeItemIndex := activeItemIndex state;
      shouldClose := shouldClose state |}, h').

(** [reducers[MenuActionTypes.UnregisterItem]]: [slice], [findIndex] by id,
    [splice] unless [-1], then the active index by [indexOf]. *)
Definition reduce_UnregisterItem (h : Heap) (state : StateDefinition)
    (item_id : string) : StateDefinition :=
  let nextItems := items state in
  (* [None]: null;  [Some None]: undefined;  [Some (Some l)]: the record [l] *)
  let currentActiveItem : option (option loc) :=
    match activeItemIndex state with
    | Some i => Some (at_index nextItems i)
    | None => None
    end in
  let idx := findIndex (λ a, String.eqb (id (item_at h a)) item_id) nextItems in
  let nextItems := if negb (idx =? -1) then splice_one idx nextItems else nextItems in
  {| menuState := menuState state; buttonRef := buttonRef state;
     itemsRef := itemsRef state; items := nextItems;
     searchQuery := searchQuery state;
     activeItemIndex :=
       if bool_decide (Some idx = activeItemIndex state) then None
       else match currentActiveItem with
            | None => None
            | Some x => Some (indexOf nextItems x)
            end;
     shouldClose := shouldClose state |}.

(** [reducers[MenuActionTypes.SetShouldClose]] *)
Definition reduce_SetShouldClose (h : Heap) (state : StateDefinition)
    (pred : option loc) : StateDefinition * Heap :=
  if bool_decide (Some (shouldClose state) = pred) then (state, h)
  else
    let '(shouldClose', h') :=
      match pred with
      | Some p => (p, h)
      | None => alloc_fn h (λ _, true)
      end in
    ({| menuState := menuState state; buttonRef := buttonRef state;
        itemsRef := itemsRef state; items := items state;
        searchQuery := searchQuery state;
        activeItemIndex := activeItemIndex state;
        shouldClose := shouldClose' |}, h').

(** [stateReducer]: [match(action.type, reducers, state, action)]. *)
Definition stateReducer (calculateActiveIndex : Focus → Resolvers → option Z)
    (h : Heap) (state : StateDefinition) (action : MenuActions)
    : StateDefinition * Heap :=
  match action with
  | CloseMenu => (reduce_CloseMenu state, h)
  | OpenMenu => (reduce_OpenMenu state, h)
  | GoToItem focus => (reduce_GoToItem calculateActiveIndex h state focus, h)
  | Search value => (reduce_Search h state value, h)
  | ClearSearch => (reduce_ClearSearch state, h)
  | RegisterItem item_id item_ref => reduce_RegisterItem h state item_id item_ref
  | UnregisterItem item_id => (reduce_UnregisterItem h state item_id, h)
  | SetShouldClose pred => reduce_SetShouldClose h state pred
  end.

(** A run of [dispatch] calls, oldest first. *)
Fixpoint dispatch_all (calculateActiveIndex : Focus → Resolvers → option Z)
    (h : Heap) (state : StateDefinition) (actions : list MenuActions)
    : StateDefinition * Heap :=
  match actions with
  | [] => (state, h)
  | a :: rest =>
      let '(state', h') := stateReducer calculateActiveIndex h state a in
      dispatch_all calculateActiveIndex h' state' rest
  end.

(** The state [Menu] hands to [useReducer]. *)
Definition initialState (button items_ close : loc) : StateDefinition :=
  {| menuState := Closed; buttonRef := button; itemsRef := items_;
     items := []; searchQuery := ""; activeItemIndex := None;
     shouldClose := close |}.
End Menu.

(** ** [calculateActiveIndex] *)

(** Modelled from the spec: [calculateActiveIndex] lives in
    [utils/calculate-active-index], which is not among the sources; only its
    call in the [GoToItem] reducer is.  The spec says of it: "GoToItem with
    First/Last always lands on the first/last non-disabled item, or leaves
    index null if none exist".  Those two moves are modelled here; what the
    spec leaves open about the others (next, previous, nothing, selection
    by id) stays a parameter, [other]. *)
Definition calculateActiveIndex_spec (other : Focus → Resolvers → option Z)
    (action : Focus) (r : Resolvers) : option Z :=
  let items := resolveItems r () in
  match action with
  | First =>
      match list_find (λ x, resolveDisabled r x = false) items with
      | Some (i, _) => Some (Z.of_nat i)
      | None => None
      end
  | Last =>
      match list_find (λ x, resolveDisabled r x = false) (reverse items) with
      | Some (i, _) => Some (Z.of_nat (length items) - 1 - Z.of_nat i)
      | None => None
      end
  | _ => other action r
  end.

(** ** [useMenuContext] *)

(** The outcome of a call that may [throw]; an [Error] is its message. *)
Inductive Completion (A : Type) :=
| Throw (message : string)
| Return (value : A).
Arguments Throw {A} message.
Arguments Return {A} value.

(** [Menu.name], the name of the function [Menu]. *)
Definition Menu_name : string := "Menu".

(** [context] is what [useContext(MenuContext)] answers: [None] for the
    default [null], otherwise the [[state, dispatch]] pair of the nearest
    provider. *)
Definition useMenuContext {Dispatch : Type}
    (context : option (StateDefinition * Dispatch)) (component : option string)
    : Completion (StateDefinition * Dispatch) :=
  match context with
  | None =>
      Throw ("<" +:+ default "Unknown" component +:+ " /> is missing a parent <"
               +:+ Menu_name +:+ " /> component.")
  | Some bag => Return bag
  end.

(** [haystack.includes(needle)], to say that a message names something. *)
Fixpoint includes (haystack needle : string) : bool :=
  String.prefix needle haystack ||
  match haystack with
  | EmptyString => false
  | String _ rest => includes rest needle
  end.

(** ** [compareNumbers] *)

(** [a > b] is evaluated as [b < a]; the result is one of [-1], [0], [1]. *)
Definition compareNumbers (a b : option float) : Z :=
  match a, b with
  | Some x, Some y =>
      if PrimFloat.ltb x y then -1 else if PrimFloat.ltb y x then 1 else 0
  | Some _, None => 1
  | None, Some _ => -1
  | None, None => 0
  end.

(** ** Reading the item sequence the way the spec words it *)

Section SpecWords.
Context {Event : Type} `{!JsString}.
Implicit Types (h : @Heap Event) (state : StateDefinition).

(** The active index refers to an item of the sequence that is not disabled. *)
Definition active_index_ok h state : Prop :=
  match activeItemIndex state with
  | None => True
  | Some i =>
      ∃ l, at_index (items state) i = Some l ∧
           disabled (current h (dataRef (item_at h l))) = false
  end.

(** The item [l] is not disabled and its label starts with [buffer],
    the label compared as it is stored. *)
Definition label_starts_with h (buffer : string) (l : loc) : Prop :=
  disabled (current h (dataRef (item_at h l))) = false ∧
  ∃ t, textValue (current h (dataRef (item_at h l))) = Some t ∧
       String.prefix buffer t = true.

(** The same, with both sides lowercased before they are compared. *)
Definition label_starts_with_ci h (buffer : string) (l : loc) : Prop :=
  disabled (current h (dataRef (item_at h l))) = false ∧
  ∃ t, textValue (current h (dataRef (item_at h l))) = Some t ∧
       String.prefix (toLowerCase buffer) (toLowerCase t) = true.

(** [i] is the index of the first element of [arr] that satisfies [P]. *)
Definition first_index (P : loc → Prop) (arr : list loc) (i : Z) : Prop :=
  (∃ l, at_index arr i = Some l ∧ P l) ∧
  ∀ j l, at_index arr j = Some l → P l → i ≤ j.

(** [i] is the index of the last element of [arr] that satisfies [P]. *)
Definition last_index (P : loc → Prop) (arr : list loc) (i : Z) : Prop :=
  (∃ l, at_index arr i = Some l ∧ P l) ∧
  ∀ j l, at_index arr j = Some l → P l → j ≤ i.

(** No element of [arr] satisfies [P]. *)
Definition no_index (P : loc → Prop) (arr : list loc) : Prop :=
  ∀ j l, at_index arr j = Some l → ¬ P l.

(** What the spec says of the active index after Search, for a given
    reading [P] of "the item matches": it moves to the first match when
    there is one and that is not where it already is, and stays otherwise. *)
Definition search_outcome (P : loc → Prop) state (after : StateDefinition) : Prop :=
  (∃ i, first_index P (items state) i ∧ activeItemIndex state ≠ Some i ∧
        activeItemIndex after = Some i) ∨
  ((no_index P (items state) ∨
    ∃ i, first_index P (items state) i ∧ activeItemIndex state = Some i) ∧
   activeItemIndex after = activeItemIndex state).

Definition enabled h (l : loc) : Prop :=
  disabled (current h (dataRef (item_at h l))) = false.

(** The ids of the items are pairwise distinct. *)
Definition distinct_ids h state : Prop :=
  NoDup ((λ l, id (item_at h l)) <$> items state).

(** The search buffer and the stored labels are their own [toLowerCase()]. *)
Definition lowercased h state : Prop :=
  toLowerCase (searchQuery state) = searchQuery state ∧
  ∀ l t, l ∈ items state →
         textValue (current h (dataRef (item_at h l))) = Some t →
         toLowerCase t = t.

Definition is_register_or_unregister (a : MenuActions) : Prop :=
  match a with
  | RegisterItem _ _ | UnregisterItem _ => True
  | _ => False
  end.

#[global] Instance is_register_or_unregister_dec a :
  Decision (is_register_or_unregister a).
Proof. destruct a; simpl; apply _. Defined.

(** Every record of the item sequence has been allocated. *)
Definition allocated h state : Prop :=
  Forall (λ l, (l < next h)%nat) (items state).
End SpecWords.

(** ** What the widgets rely on *)

Section Reliance.
Context {Event : Type} `{!JsString}.
Implicit Types (h : @Heap Event) (state : StateDefinition).

(** [i] is null or an index into [arr]. *)
Definition index_in_range (arr : list loc) (i : option Z) : Prop :=
  match i with
  | None => True
  | Some i => is_Some (at_index arr i)
  end.

Definition active_index_in_range state : Prop :=
  index_in_range (items state) (activeItemIndex state).

(** What the reducers need of [calculateActiveIndex]: handed an active index
    that is null or in range, it answers null or an index in range. *)
Definition keeps_in_range (calc : Focus → Resolvers → option Z) : Prop :=
  ∀ focus r,
    index_in_range (resolveItems r ()) (resolveActiveIndex r ()) →
    index_in_range (resolveItems r ()) (calc focus r).

(** No item of the sequence carries the id [i]. *)
Definition id_unused h state (i : string) : Prop :=
  ∀ l, l ∈ items state → id (item_at h l) ≠ i.
End Reliance.

(** ** [canUseIntersectionObserver] *)

(** What the check can see of its surroundings.  [NoWindow]: [typeof
    window] is ["undefined"].  Otherwise [observer] says whether
    ['IntersectionObserver' in window], and [entry] is [None] when
    ['IntersectionObserverEntry'] is not in [window] and else says whether
    ['boundingClientRect'] is in [IntersectionObserverEntry.prototype]. *)
Inductive Surroundings :=
| NoWindow
| Window (observer : bool) (entry : option bool).

(** The [&&] chain, which stops at the first operand that is false. *)
Definition probe (env : Surroundings) : bool :=
  match env with
  | NoWindow => false
  | Window observer entry =>
      observer &&
      match entry with
      | None => false
      | Some boundingClientRect => boundingClientRect
      end
  end.

(** [cachedCanUseIntersectionObserver ?? (cachedCanUseIntersectionObserver
    = ...)]: the module variable goes in and comes out. *)
Definition canUseIntersectionObserver (cached : option bool) (env : Surroundings)
    : bool * option bool :=
  match cached with
  | Some answer => (answer, cached)
  | None => let answer := probe env in (answer, Some answer)
  end.

(** ** The widgets: what they read from the state and what their handlers do *)

(** The key names of [components/keyboard], which the component imports. *)
Record KeyNames := {
  Keys_Space : string;
  Keys_Enter : string;
  Keys_Escape : string;
  Keys_ArrowUp : string;
  Keys_ArrowDown : string;
  Keys_Home : string;
  Keys_End : string;
  Keys_PageUp : string;
  Keys_PageDown : string;
  Keys_Tab : string;
}.

(** What a handler does to the world around it, in the order it does it:
    - [searchDisposables_dispose]: [searchDisposables.dispose()];
    - [preventDefault], [stopPropagation]: the calls on the event;
    - [dispatch a]: [dispatch(a)];
    - [click id]: [document.getElementById(id)?.click()];
    - [focus_button_nextFrame]:
      [nextFrame(() => state.buttonRef.current?.focus({ preventScroll: true }))];
    - [dispatch_nextFrame a]: [d.nextFrame(() => dispatch(a))];
    - [dispatch_setTimeout a ms]:
      [searchDisposables.setTimeout(() => dispatch(a), ms)];
    - [onClick]: [onClick(event)];
    - [focus_button]: [buttonRef.current?.focus()]. *)
Inductive Effect :=
| searchDisposables_dispose
| preventDefault
| stopPropagation
| dispatch (action : MenuActions)
| click (element_id : string)
| focus_button_nextFrame
| dispatch_nextFrame (action : MenuActions)
| dispatch_setTimeout (action : MenuActions) (ms : Z)
| onClick
| focus_button.

#[global] Instance Focus_eq_dec : EqDecision Focus.
Proof. solve_decision. Defined.
#[global] Instance MenuActions_eq_dec : EqDecision MenuActions.
Proof. solve_decision. Defined.
#[global] Instance Effect_eq_dec : EqDecision Effect.
Proof. solve_decision. Defined.

(** The actions a handler dispatches before it returns, in order. *)
Fixpoint dispatched (effects : list Effect) : list MenuActions :=
  match effects with
  | [] => []
  | dispatch action :: rest => action :: dispatched rest
  | _ :: rest => dispatched rest
  end.

Section Widgets.
Context {Event : Type} `{!JsString}.
Implicit Types (h : @Heap Event) (state : StateDefinition).

(** [Item]: [state.activeItemIndex !== null ?
    state.items[state.activeItemIndex].id === id : false].  Reading [.id]
    of [undefined] throws a TypeError. *)
Definition Item_active h state (item_id : string) : Completion bool :=
  match activeItemIndex state with
  | Some i =>
      match at_index (items state) i with
      | Some l => Return (String.eqb (id (item_at h l)) item_id)
      | None => Throw "TypeError"
      end
  | None => Return false
  end.

(** [Items]: ['aria-activedescendant': state.activeItemIndex === null ?
    undefined : state.items[state.activeItemIndex]?.id]. *)
Definition aria_activedescendant h state : option string :=
  match activeItemIndex state with
  | Some i => (λ l, id (item_at h l)) <$> at_index (items state) i
  | None => None
  end.

(** [Items.handleKeyDown], the statements under [case Keys.Enter]. *)
Definition Items_Enter h state (event : Event) : list Effect * Completion unit :=
  if fn_at h (shouldClose state) event then
    match activeItemIndex state with
    | Some i =>
        match at_index (items state) i with
        | Some l =>
            ([preventDefault; stopPropagation; dispatch CloseMenu;
              click (id (item_at h l)); focus_button_nextFrame], Return ())
        | None =>
            ([preventDefault; stopPropagation; dispatch CloseMenu], Throw "TypeError")
        end
    | None =>
        ([preventDefault; stopPropagation; dispatch CloseMenu;
          focus_button_nextFrame], Return ())
    end
  else ([], Return ()).

(** [Items.handleKeyDown]: the timers of the search are disposed of, then
    the [switch] on [event.key] takes the first case that matches, [Space]
    falling through to [Enter] when no search is under way. *)
Definition Items_handleKeyDown (Keys : KeyNames) h state (key : string)
    (event : Event) : list Effect * Completion unit :=
  let '(effects, completion) :=
    if String.eqb key (Keys_Space Keys) then
      if negb (String.eqb (searchQuery state) "") then
        ([preventDefault; stopPropagation; dispatch (Search key)], Return ())
      else Items_Enter h state event
    else if String.eqb key (Keys_Enter Keys) then Items_Enter h state event
    else if String.eqb key (Keys_ArrowDown Keys) then
      ([preventDefault; stopPropagation; dispatch (GoToItem Next)], Return ())
    else if String.eqb key (Keys_ArrowUp Keys) then
      ([preventDefault; stopPropagation; dispatch (GoToItem Previous)], Return ())
    else if (String.eqb key (Keys_Home Keys) || String.eqb key (Keys_PageUp Keys))%bool then
      ([preventDefault; stopPropagation; dispatch (GoToItem First)], Return ())
    else if (String.eqb key (Keys_End Keys) || String.eqb key (Keys_PageDown Keys))%bool then
      ([preventDefault; stopPropagation; dispatch (GoToItem Last)], Return ())
    else if String.eqb key (Keys_Escape Keys) then
      if fn_at h (shouldClose state) event then
        ([preventDefault; stopPropagation; dispatch CloseMenu;
          focus_button_nextFrame], Return ())
      else ([], Return ())
    else if String.eqb key (Keys_Tab Keys) then
      ([preventDefault; stopPropagation], Return ())
    else if (code_units key =? 1)%nat then
      ([dispatch (Search key); dispatch_setTimeout ClearSearch 350], Return ())
    else ([], Return ()) in
  (searchDisposables_dispose :: effects, completion).

(** [Button.handleKeyDown]. *)
Definition Button_handleKeyDown (Keys : KeyNames) (key : string) : list Effect :=
  if (String.eqb key (Keys_Space Keys) || String.eqb key (Keys_Enter Keys)
      || String.eqb key (Keys_ArrowDown Keys))%bool then
    [preventDefault; stopPropagation; dispatch OpenMenu;
     dispatch_nextFrame (GoToItem First)]
  else if String.eqb key (Keys_ArrowUp Keys) then
    [preventDefault; stopPropagation; dispatch OpenMenu;
     dispatch_nextFrame (GoToItem Last)]
  else [].

(** [Button.handleClick].  [issue7711] is what
    [isDisabledReactIssue7711(event.currentTarget)] answers and
    [props_disabled] is [props.disabled]. *)
Definition Button_handleClick (issue7711 props_disabled : bool) h state
    (event : Event) : list Effect :=
  if issue7711 then [preventDefault]
  else if props_disabled then []
  else if decide (menuState state = Open) then
    if fn_at h (shouldClose state) event then
      [dispatch CloseMenu; focus_button_nextFrame]
    else []
  else [preventDefault; stopPropagation; dispatch OpenMenu].

(** [Item.handleClick]; [has_onClick] says whether the [onClick] prop is set. *)
Definition Item_handleClick (disabled_ has_onClick : bool) h state
    (event : Event) : list Effect :=
  if disabled_ then [preventDefault]
  else
    (if fn_at h (shouldClose state) event
     then [dispatch CloseMenu; focus_button_nextFrame] else [])
    ++ (if has_onClick then [onClick] else []).

(** [Item.handleFocus]. *)
Definition Item_handleFocus (disabled_ : bool) (item_id : string) : list Effect :=
  if disabled_ then [dispatch (GoToItem Nothing)]
  else [dispatch (GoToItem (Specific item_id))].

(** [Item.handleMove]; [active] is the flag computed at render. *)
Definition Item_handleMove (disabled_ active : bool) (item_id : string)
    : list Effect :=
  if disabled_ then []
  else if active then []
  else [dispatch (GoToItem (Specific item_id))].

(** [Item.handleLeave]. *)
Definition Item_handleLeave (disabled_ active : bool) : list Effect :=
  if disabled_ then []
  else if negb active then []
  else [dispatch (GoToItem Nothing)].

(** The ten key names are pairwise different. *)
Definition distinct_keys (Keys : KeyNames) : Prop :=
  NoDup [Keys_Space Keys; Keys_Enter Keys; Keys_ArrowDown Keys; Keys_ArrowUp Keys;
         Keys_Home Keys; Keys_PageUp Keys; Keys_End Keys; Keys_PageDown Keys;
         Keys_Escape Keys; Keys_Tab Keys].

(** [key] is none of the ten key names. *)
Definition unnamed_key (Keys : KeyNames) (key : string) : Prop :=
  key ∉ [Keys_Space Keys; Keys_Enter Keys; Keys_ArrowDown Keys; Keys_ArrowUp Keys;
         Keys_Home Keys; Keys_PageUp Keys; Keys_End Keys; Keys_PageDown Keys;
         Keys_Escape Keys; Keys_Tab Keys].
End Widgets.

(** ** Concrete heaps and runs, for evaluation *)

Module Samples.
#[local] Existing Instance ascii_strings.

(** A heap with nothing allocated. *)
Definition empty_heap : @Heap unit :=
  {| next := 0%nat;
     item_at := λ _, {| id := ""; dataRef := 0%nat |};
     current := λ _, {| textValue := None; disabled := false |};
     fn_at := λ _ _, true |}.

(** What the [Item] widget does before it registers: [useRef] and the
    effects that write [bag.current]. *)
Definition with_ref (h : @Heap unit) (r : loc) (d : MenuItemData) : @Heap unit :=
  {| next := next h; item_at := item_at h;
     current := <[r := d]> (current h); fn_at := fn_at h |}.

Definition no_move : Focus → Resolvers → option Z := λ _ r, resolveActiveIndex r ().

Definition init : StateDefinition := initialState 0%nat 1%nat 0%nat.

(** Two enabled items, labels "x" and "y". *)
Definition heap_xy : @Heap unit :=
  with_ref (with_ref empty_heap 0%nat {| textValue := Some "x"; disabled := false |})
           1%nat {| textValue := Some "y"; disabled := false |}.

(** Two items registered under the same id, the second one made active. *)
Definition twins : StateDefinition * @Heap unit :=
  dispatch_all no_move heap_xy init
    [RegisterItem "a" 0%nat; RegisterItem "a" 1%nat; Search "y"].

(** The same two items, the first one made active. *)
Definition twins_first : StateDefinition * @Heap unit :=
  dispatch_all no_move heap_xy init
    [RegisterItem "a" 0%nat; RegisterItem "a" 1%nat; Search "x"].

(** Three items with ids "a", "b", "c"; "c" (label "y") is active. *)
Definition heap_xxy : @Heap unit :=
  with_ref (with_ref (with_ref empty_heap
     0%nat {| textValue := Some "x"; disabled := false |})
     1%nat {| textValue := Some "x"; disabled := true |})
     2%nat {| textValue := Some "y"; disabled := false |}.

Definition three : StateDefinition * @Heap unit :=
  dispatch_all no_move heap_xxy init
    [RegisterItem "a" 0%nat; RegisterItem "b" 1%nat; RegisterItem "c" 2%nat;
     Search "Y"].

(** The same three items with the search buffer cleared again. *)
Definition three_cleared : StateDefinition * @Heap unit :=
  dispatch_all no_move heap_xxy init
    [RegisterItem "a" 0%nat; RegisterItem "b" 1%nat; RegisterItem "c" 2%nat;
     Search "Y"; ClearSearch].

(** Items coming and going, nothing else. *)
Definition mount_unmount : list MenuActions :=
  [RegisterItem "a" 0%nat; RegisterItem "b" 1%nat; UnregisterItem "a"].

Definition mounted : StateDefinition * @Heap unit :=
  dispatch_all no_move heap_xy init mount_unmount.

(** One enabled item whose stored label is capitalised. *)
Definition heap_Apple : @Heap unit :=
  with_ref empty_heap 0%nat {| textValue := Some "Apple"; disabled := false |}.

Definition apple : StateDefinition * @Heap unit :=
  dispatch_all no_move heap_Apple init [RegisterItem "a" 0%nat].

(** A closed menu in which type-ahead has made an item active. *)
Definition closed_active : StateDefinition * @Heap unit :=
  dispatch_all no_move heap_xy init [RegisterItem "a" 0%nat; Search "x"].
End Samples.

(** ** [Menu] and [Item]: what mounting does *)

Section Mounting.
Context {Event : Type} `{!JsString}.
Implicit Types (h : @Heap Event) (state : StateDefinition).

(** [!shouldClose || shouldClose(event)] on the [shouldClose] prop of [Menu]. *)
Definition prop_allows h (prop : option loc) (event : Event) : bool :=
  match prop with
  | None => true
  | Some p => fn_at h p event
  end.

(** The state [Menu] hands to [useReducer] on its first render: two fresh
    refs from [createRef()], and [shouldClose ?? (() => true)]. *)
Definition Menu_initialState h (prop : option loc) : StateDefinition * Heap :=
  let button := next h in
  let items_ := S (next h) in
  let h1 := {| next := S (S (next h)); item_at := item_at h;
               current := current h; fn_at := fn_at h |} in
  let '(close, h2) :=
    match prop with
    | Some p => (p, h1)
    | None => alloc_fn h1 (λ _, true)
    end in
  (initialState button items_ close, h2).

(** The [mousedown] listener of [Menu].  [menu] is the [menuState] of the
    render; [in_button], [in_items] say whether
    [buttonRef.current?.contains(target)] and
    [itemsRef.current?.contains(target)] hold, and [focusable] is
    [isFocusableElement(target, FocusableMode.Loose)]. *)
Definition Menu_handleMousedown h (prop : option loc) (menu : MenuStates)
    (in_button in_items focusable : bool) (event : Event) : list Effect :=
  if negb (bool_decide (menu = Open)) then []
  else if in_button then []
  else if in_items then []
  else if prop_allows h prop event then
    dispatch CloseMenu ::
    (if negb focusable then [preventDefault; focus_button] else [])
  else [].








End Mounting.

(** ** More concrete inputs *)

Module Keyboard.
#[local] Existing Instance ascii_strings.

(** The key values of the UI Events specification. *)
Definition ui_events : KeyNames :=
  {| Keys_Space := " "; Keys_Enter := "Enter"; Keys_Escape := "Escape";
     Keys_ArrowUp := "ArrowUp"; Keys_ArrowDown := "ArrowDown";
     Keys_Home := "Home"; Keys_End := "End"; Keys_PageUp := "PageUp";
     Keys_PageDown := "PageDown"; Keys_Tab := "Tab" |}.

(** Mounting, typing and unmounting. *)
Definition session : list MenuActions :=
  [RegisterItem "a" 0%nat; RegisterItem "b" 1%nat; RegisterItem "c" 2%nat;
   OpenMenu; Search "y"; UnregisterItem "a"; GoToItem Nothing; Search "x";
   ClearSearch; CloseMenu].

(** An open menu with three items, the last one active, no search under way. *)
Definition opened : StateDefinition * @Heap unit :=
  dispatch_all Samples.no_move Samples.heap_xxy Samples.init
    [RegisterItem "a" 0%nat; RegisterItem "b" 1%nat; RegisterItem "c" 2%nat;
     OpenMenu; Search "y"; ClearSearch].

(** The same menu after "x" was typed. *)
Definition typing : StateDefinition * @Heap unit :=
  dispatch_all Samples.no_move opened.2 opened.1 [Search "x"].


End Keyboard.

(** * Properties *)

(** ** Facts about the array primitives *)

Section JsArrayFacts.
Context {A : Type}.
Implicit Types (p : A → bool) (arr : list A).

Lemma findIndex_found p arr i x :
  arr !! i = Some x → p x = true →
  (∀ j y, arr !! j = Some y → (j < i)%nat → p y = false) →
  findIndex p arr = Z.of_nat i.
Proof.
  intros Hi Hp Hleast. unfold findIndex.
  assert (list_find (λ x, p x = true) arr = Some (i, x)) as ->; [|done].
  apply list_find_Some. split_and!; [done..|].
  intros j y Hj Hlt. rewrite (Hleast j y Hj Hlt). discriminate.
Qed.

Lemma findIndex_cases p arr :
  (findIndex p arr = -1 ∧ ∀ j y, arr !! j = Some y → p y = false) ∨
  (∃ i x, findIndex p arr = Z.of_nat i ∧ arr !! i = Some x ∧ p x = true ∧
          ∀ j y, arr !! j = Some y → (j < i)%nat → p y = false).
Proof.
  unfold findIndex.
  destruct (list_find (λ x, p x = true) arr) as [[i x]|] eqn:Hfind.
  - right. apply list_find_Some in Hfind as (Hi & Hp & Hleast).
    exists i, x. split_and!; [done..|].
    intros j y Hj Hlt. specialize (Hleast j y Hj Hlt).
    by destruct (p y).
  - left. split; [done|]. intros j y Hj.
    apply list_find_None in Hfind.
    rewrite Forall_lookup in Hfind. specialize (Hfind j y Hj).
    by destruct (p y).
Qed.

Lemma findIndex_unique p arr i x :
  arr !! i = Some x → p x = true →
  (∀ j y, arr !! j = Some y → p y = true → j = i) →
  findIndex p arr = Z.of_nat i.
Proof.
  intros Hi Hp Huniq. apply (findIndex_found p arr i x Hi Hp).
  intros j y Hj Hlt. destruct (p y) eqn:Hy; [|done].
  specialize (Huniq j y Hj Hy). lia.
Qed.

Lemma at_index_of_nat arr (n : nat) : at_index arr (Z.of_nat n) = arr !! n.
Proof.
  unfold at_index. destruct (Z.ltb_spec (Z.of_nat n) 0); [lia|].
  by rewrite Nat2Z.id.
Qed.

Lemma at_index_Some arr i x :
  at_index arr i = Some x → ∃ n : nat, i = Z.of_nat n ∧ arr !! n = Some x.
Proof.
  unfold at_index. destruct (Z.ltb_spec i 0); [done|].
  intros Hx. exists (Z.to_nat i). split; [lia | done].
Qed.

Lemma splice_one_in_range arr (n : nat) :
  (n < length arr)%nat → splice_one (Z.of_nat n) arr = delete n arr.
Proof.
  intros Hn. unfold splice_one.
  destruct (Z.ltb_spec (Z.of_nat n) 0); [lia|].
  f_equal. lia.
Qed.
End JsArrayFacts.

(** ** The reducers *)

Section MenuFacts.
Context {Event : Type} `{!JsString}.
Variable calculateActiveIndex : Focus → Resolvers → option Z.
Implicit Types (h : @Heap Event) (state : StateDefinition).

Lemma register_unregister_keep_null h state a :
  is_register_or_unregister a → activeItemIndex state = None →
  activeItemIndex (stateReducer calculateActiveIndex h state a).1 = None.
Proof.
  intros Ha Hnull. destruct a; try done; simpl.
  rewrite Hnull. by rewrite bool_decide_eq_false_2.
Qed.

Lemma register_unregister_run_keeps_null actions : ∀ h state,
  Forall is_register_or_unregister actions → activeItemIndex state = None →
  activeItemIndex (dispatch_all calculateActiveIndex h state actions).1 = None.
Proof.
  induction actions as [|a rest IH]; intros h state Hall Hnull; [done|].
  inversion Hall as [|? ? Ha Hrest]; subst. simpl.
  pose proof (register_unregister_keep_null h state a Ha Hnull) as Hstep.
  destruct (stateReducer calculateActiveIndex h state a) as [state' h']. by apply IH.
Qed.

(** C1.  Starting from the initial state (no items, null active index),
    after any sequence of RegisterItem and UnregisterItem actions the
    active index, when it is not null, is a valid index into the current
    items and the item there has [dataRef.current.disabled = false].
    (On such runs the index in fact stays null.) *)
Theorem register_unregister_active_index_ok h0 button items_ close actions state h :
  Forall is_register_or_unregister actions →
  dispatch_all calculateActiveIndex h0 (initialState button items_ close) actions
    = (state, h) →
  active_index_ok h state.
Proof.
  intros Hall Hrun.
  pose proof (register_unregister_run_keeps_null actions h0
                (initialState button items_ close) Hall eq_refl) as Hnull.
  rewrite Hrun in Hnull. simpl in Hnull.
  unfold active_index_ok. by rewrite Hnull.
Qed.

(** C5 (as amended).  Dispatching OpenMenu twice gives what dispatching it
    once gives, and so for CloseMenu.  After CloseMenu the menu is Closed;
    the active index is null when the menu was Open, and is the old one
    when the menu was already Closed (that state is handed back as it is). *)
Theorem OpenMenu_CloseMenu_idempotent h state :
  (let once := stateReducer calculateActiveIndex h state OpenMenu in
   stateReducer calculateActiveIndex once.2 once.1 OpenMenu = once) ∧
  (let once := stateReducer calculateActiveIndex h state CloseMenu in
   stateReducer calculateActiveIndex once.2 once.1 CloseMenu = once) ∧
  menuState (stateReducer calculateActiveIndex h state CloseMenu).1 = Closed ∧
  activeItemIndex (stateReducer calculateActiveIndex h state CloseMenu).1 =
    match menuState state with
    | Open => None
    | Closed => activeItemIndex state
    end ∧
  match menuState state with
  | Open =>
      stateReducer calculateActiveIndex h state CloseMenu =
        ({| menuState := Closed; buttonRef := buttonRef state;
            itemsRef := itemsRef state; items := items state;
            searchQuery := searchQuery state; activeItemIndex := None;
            shouldClose := shouldClose state |}, h)
  | Closed => stateReducer calculateActiveIndex h state CloseMenu = (state, h)
  end.
Proof.
  simpl. unfold reduce_OpenMenu, reduce_CloseMenu.
  destruct state as [[] ? ? ? ? ? ?]; simpl; done.
Qed.

(** C6.  After GoToItem, whatever the focus (Specific with any id
    included), the search query is the empty string, and nothing but
    [searchQuery] and [activeItemIndex] differs from the state before;
    the heap is untouched. *)
Theorem GoToItem_clears_search_only h state focus :
  let after := stateReducer calculateActiveIndex h state (GoToItem focus) in
  searchQuery after.1 = "" ∧
  menuState after.1 = menuState state ∧
  buttonRef after.1 = buttonRef state ∧
  itemsRef after.1 = itemsRef state ∧
  items after.1 = items state ∧
  shouldClose after.1 = shouldClose state ∧
  after.2 = h.
Proof.
  simpl. unfold reduce_GoToItem.
  destruct (String.eqb (searchQuery state) "") eqn:Hq; simpl.
  - apply String.eqb_eq in Hq. case_bool_decide; simpl; done.
  - done.
Qed.

(** C7.  SetShouldClose with a predicate [p] leaves [p] in the
    [shouldClose] field; with the predicate unset it leaves there a
    predicate that answers true for every event.  No other field of the
    state changes, and no object that existed before is changed. *)
Theorem SetShouldClose_replaces_predicate h state :
  (∀ p, let after := stateReducer calculateActiveIndex h state (SetShouldClose (Some p)) in
        shouldClose after.1 = p ∧ after.2 = h ∧
        menuState after.1 = menuState state ∧
        buttonRef after.1 = buttonRef state ∧
        itemsRef after.1 = itemsRef state ∧
        items after.1 = items state ∧
        searchQuery after.1 = searchQuery state ∧
        activeItemIndex after.1 = activeItemIndex state) ∧
  (let after := stateReducer calculateActiveIndex h state (SetShouldClose None) in
   (∀ event, fn_at after.2 (shouldClose after.1) event = true) ∧
   menuState after.1 = menuState state ∧
   buttonRef after.1 = buttonRef state ∧
   itemsRef after.1 = itemsRef state ∧
   items after.1 = items state ∧
   searchQuery after.1 = searchQuery state ∧
   activeItemIndex after.1 = activeItemIndex state ∧
   item_at after.2 = item_at h ∧ current after.2 = current h ∧
   ∀ l, (l < next h)%nat → fn_at after.2 l = fn_at h l).
Proof.
  split.
  - intros p. simpl. unfold reduce_SetShouldClose.
    case_bool_decide as Heq; simpl; [|done].
    by injection Heq as ->.
  - simpl. unfold reduce_SetShouldClose.
    split_and!; try done.
    + intros event. by rewrite fn_lookup_insert.
    + intros l Hl. rewrite fn_lookup_insert_ne; [done | lia].
Qed.

(** C9.  RegisterItem puts a new record [{id, dataRef}] at the end of the
    items and leaves [menuState], [searchQuery], [activeItemIndex] and
    [shouldClose] as they were; so a null active index stays null, also
    when the item registered is the first one that is not disabled. *)
Theorem RegisterItem_appends h state item_id item_ref :
  let after := stateReducer calculateActiveIndex h state (RegisterItem item_id item_ref) in
  items after.1 = (items state ++ [next h])%list ∧
  item_at after.2 (next h) = {| id := item_id; dataRef := item_ref |} ∧
  (∀ l, (l < next h)%nat → item_at after.2 l = item_at h l) ∧
  current after.2 = current h ∧ fn_at after.2 = fn_at h ∧
  menuState after.1 = menuState state ∧
  searchQuery after.1 = searchQuery state ∧
  activeItemIndex after.1 = activeItemIndex state ∧
  shouldClose after.1 = shouldClose state ∧
  buttonRef after.1 = buttonRef state ∧
  itemsRef after.1 = itemsRef state.
Proof.
  simpl. split_and!; try done.
  - by rewrite fn_lookup_insert.
  - intros l Hl. rewrite fn_lookup_insert_ne; [done | lia].
Qed.

(** *** UnregisterItem *)

Lemma findIndex_by_id h state (n : nat) x :
  distinct_ids h state → items state !! n = Some x →
  findIndex (λ a, String.eqb (id (item_at h a)) (id (item_at h x))) (items state)
    = Z.of_nat n.
Proof.
  intros Hids Hn. apply (findIndex_unique _ _ n x Hn).
  - apply String.eqb_refl.
  - intros j y Hj Hy. apply String.eqb_eq in Hy.
    apply (NoDup_lookup _ j n (id (item_at h x)) Hids);
      rewrite list_lookup_fmap.
    + rewrite Hj. simpl. by rewrite Hy.
    + by rewrite Hn.
Qed.

Lemma indexOf_after_delete (arr : list loc) (k n : nat) a :
  NoDup arr → arr !! n = Some a → k ≠ n →
  let j := if (Z.of_nat k <? Z.of_nat n) then Z.of_nat n - 1 else Z.of_nat n in
  indexOf (delete k arr) (Some a) = j ∧ at_index (delete k arr) j = Some a.
Proof.
  intros Hnd Hn Hkn. simpl.
  set (m := if decide (k < n)%nat then (n - 1)%nat else n).
  assert ((if Z.of_nat k <? Z.of_nat n then Z.of_nat n - 1 else Z.of_nat n)
          = Z.of_nat m) as ->.
  { unfold m. destruct (Z.ltb_spec (Z.of_nat k) (Z.of_nat n));
      destruct (decide (k < n)%nat); lia. }
  assert (delete k arr !! m = Some a) as Hm.
  { rewrite list_lookup_delete. unfold m.
    destruct (decide (k < n)%nat).
    - rewrite decide_False by lia. rewrite <- Hn. f_equal. lia.
    - by rewrite decide_True by lia. }
  split; [|by rewrite at_index_of_nat].
  unfold indexOf. apply (findIndex_unique _ _ m a Hm).
  - apply Nat.eqb_refl.
  - intros j y Hj Hy. apply Nat.eqb_eq in Hy. subst y.
    rewrite list_lookup_delete in Hj.
    pose proof (NoDup_lookup _ _ _ _ Hnd Hj Hn) as Heq.
    unfold m. destruct (decide (j < k)%nat), (decide (k < n)%nat); lia.
Qed.

(** C2 (as amended).  In a state whose item ids are pairwise distinct and
    whose active index refers to an item: UnregisterItem with that item's
    id leaves the active index null; UnregisterItem with the id of any
    other item of the sequence removes that other item and leaves the
    active index at the new position of the very same item record (one
    less than before when the removed item stood in front of it). *)
Theorem UnregisterItem_tracks_active_item h state i a :
  distinct_ids h state →
  activeItemIndex state = Some i →
  at_index (items state) i = Some a →
  activeItemIndex
    (stateReducer calculateActiveIndex h state (UnregisterItem (id (item_at h a)))).1
    = None ∧
  ∀ k b, at_index (items state) k = Some b → k ≠ i →
    let after :=
      (stateReducer calculateActiveIndex h state (UnregisterItem (id (item_at h b)))).1 in
    let j := if k <? i then i - 1 else i in
    items after = delete (Z.to_nat k) (items state) ∧
    activeItemIndex after = Some j ∧
    at_index (items after) j = Some a.
Proof.
  intros Hids Hactive Ha.
  apply at_index_Some in Ha as (n & -> & Hn). split.
  - simpl. rewrite (findIndex_by_id h state n a Hids Hn), Hactive.
    by rewrite bool_decide_eq_true_2.
  - intros k b Hb Hne.
    apply at_index_Some in Hb as (k' & -> & Hk). simpl.
    rewrite (findIndex_by_id h state k' b Hids Hk), Hactive.
    rewrite bool_decide_eq_false_2 by congruence.
    destruct (Z.eqb_spec (Z.of_nat k') (-1)) as [|_]; [lia|]. simpl.
    rewrite splice_one_in_range by (by eapply lookup_lt_Some).
    rewrite Nat2Z.id, at_index_of_nat, Hn.
    assert (k' ≠ n) as Hkn by congruence.
    destruct (indexOf_after_delete (items state) k' n a
                (NoDup_fmap_1 _ _ Hids) Hn Hkn) as [Hidx Hat].
    cbv zeta in Hidx, Hat. split_and!; [done | by f_equal | done].
Qed.

Lemma indexOf_elem (arr : list loc) l :
  l ∈ arr → ∃ j : nat, indexOf arr (Some l) = Z.of_nat j ∧ arr !! j = Some l.
Proof.
  intros Hl. unfold indexOf.
  destruct (findIndex_cases (λ a, Nat.eqb a l) arr)
    as [[_ Hnone]|(j & x & Hj & Hx & Heq & _)].
  - apply list_elem_of_lookup_1 in Hl as [n Hn].
    specialize (Hnone n l Hn). simpl in Hnone.
    by rewrite Nat.eqb_refl in Hnone.
  - apply Nat.eqb_eq in Heq as ->. eauto.
Qed.

Lemma splice_or_keep (arr : list loc) (idx : Z) (p : loc → bool) :
  idx = findIndex p arr →
  ∃ k : nat,
    (if negb (idx =? -1) then splice_one idx arr else arr) = delete k arr ∧
    (idx = Z.of_nat k ∨ (length arr ≤ k)%nat).
Proof.
  intros ->.
  destruct (findIndex_cases p arr) as [[-> _]|(k & x & -> & Hkx & _)].
  - exists (length arr). simpl. split; [|by right].
    induction arr as [|y ys IH]; simpl; [done|]. by rewrite <- IH.
  - exists k. destruct (Z.eqb_spec (Z.of_nat k) (-1)); [lia|]. simpl.
    split; [|by left]. apply splice_one_in_range. by eapply lookup_lt_Some.
Qed.

(** The invariant of C1 is kept by RegisterItem and UnregisterItem from any
    state that has it, not only along runs from the initial state (on which
    the index is null throughout). *)
Lemma register_unregister_preserve h state a :
  allocated h state → active_index_ok h state →
  is_register_or_unregister a →
  let after := stateReducer calculateActiveIndex h state a in
  allocated after.2 after.1 ∧ active_index_ok after.2 after.1.
Proof.
  intros Halloc Hok Ha. destruct a as [| | | | |rid rref|uid|]; try done.
  - (* RegisterItem *)
    simpl. split.
    + unfold allocated in *. simpl. apply Forall_app. split.
      * eapply Forall_impl; [|exact Halloc]. simpl. lia.
      * repeat constructor.
    + unfold active_index_ok in *. simpl.
      destruct (activeItemIndex state) as [i|]; [|done].
      destruct Hok as (l & Hl & Hen). exists l.
      apply at_index_Some in Hl as (n & -> & Hn).
      rewrite at_index_of_nat. split.
      * by apply lookup_app_l_Some.
      * unfold allocated in Halloc. rewrite Forall_lookup in Halloc.
        specialize (Halloc n l Hn). simpl in Halloc.
        rewrite fn_lookup_insert_ne by lia. done.
  - (* UnregisterItem *)
    cbv [stateReducer reduce_UnregisterItem fst snd].
    destruct (splice_or_keep (items state) _
                (λ a, String.eqb (id (item_at h a)) uid) eq_refl)
      as (k & Hnext & Hk).
    rewrite Hnext. split.
    + unfold allocated in *. simpl.
      rewrite list.Forall_forall in *. intros x Hx.
      apply Halloc. by eapply list_elem_of_delete_inv.
    + unfold active_index_ok in *. simpl.
      destruct (activeItemIndex state) as [i|] eqn:Hactive;
        [|by rewrite bool_decide_eq_false_2].
      case_bool_decide as Hidx; [done|].
      destruct Hok as (l & Hl & Hen). rewrite Hl.
      apply at_index_Some in Hl as (n & -> & Hn).
      assert (l ∈ delete k (items state)) as Hin.
      { apply list_elem_of_lookup.
        exists (if decide (n < k)%nat then n else (n - 1)%nat).
        rewrite list_lookup_delete. rewrite <- Hn. f_equal.
        assert (k ≠ n) as Hkn.
        { destruct Hk as [Hk|Hk].
          - intros ->. apply Hidx. by rewrite Hk.
          - apply lookup_lt_Some in Hn. lia. }
        destruct (decide (n < k)%nat);
          [by rewrite decide_True | rewrite decide_False by lia; lia]. }
      destruct (indexOf_elem _ l Hin) as (j & -> & Hj).
      exists l. by rewrite at_index_of_nat.
Qed.

(** *** Search *)

Lemma findIndex_first_index (p : loc → bool) (P : loc → Prop) arr :
  (∀ x, p x = true ↔ P x) →
  (findIndex p arr = -1 ∧ no_index P arr) ∨
  (findIndex p arr ≠ -1 ∧ first_index P arr (findIndex p arr)).
Proof.
  intros Hp.
  destruct (findIndex_cases p arr) as [[-> Hnone]|(i & x & -> & Hi & Hx & Hleast)].
  - left. split; [done|]. intros j l Hj HP.
    apply at_index_Some in Hj as (j' & -> & Hj).
    apply Hp in HP. rewrite (Hnone j' l Hj) in HP. discriminate.
  - right. split; [lia|]. split.
    + exists x. rewrite at_index_of_nat. split; [done | by apply Hp].
    + intros j l Hj HP. apply at_index_Some in Hj as (j' & -> & Hj).
      apply Hp in HP. destruct (decide (j' < i)%nat) as [Hlt|]; [|lia].
      rewrite (Hleast j' l Hj Hlt) in HP. discriminate.
Qed.

Lemma search_hit_label h buffer l :
  search_hit h buffer l = true ↔ label_starts_with h buffer l.
Proof.
  unfold search_hit, label_starts_with, startsWith.
  destruct (textValue _) as [t|]; split.
  - intros [Hpre Hdis]%andb_prop. apply negb_true_iff in Hdis. eauto.
  - intros (Hdis & t' & [= <-] & Hpre). by rewrite Hpre, Hdis.
  - done.
  - by intros (_ & t' & ? & _).
Qed.

Lemma Search_outcome_exact h state value :
  let after := (stateReducer calculateActiveIndex h state (Search value)).1 in
  let buffer := searchQuery state +:+ toLowerCase value in
  searchQuery after = buffer ∧
  search_outcome (label_starts_with h buffer) state after.
Proof.
  simpl. unfold reduce_Search, search_outcome.
  set (buffer := searchQuery state +:+ toLowerCase value).
  destruct (findIndex_first_index (search_hit h buffer) (label_starts_with h buffer)
              (items state) (search_hit_label h buffer)) as [[-> Hnone]|[Hne Hfirst]].
  - simpl. split; [done|]. right. split; [by left | done].
  - destruct (Z.eqb_spec (findIndex (search_hit h buffer) (items state)) (-1))
      as [|_]; [done|]. simpl.
    case_bool_decide as Hcur; simpl; (split; [done|]).
    + right. split; [|done]. right. eauto.
    + left. eexists. split_and!; [done | congruence | done].
Qed.

Lemma first_index_ext (P Q : loc → Prop) arr i :
  (∀ l, l ∈ arr → (P l ↔ Q l)) → first_index P arr i → first_index Q arr i.
Proof.
  intros Hext [(l & Hl & HP) Hleast]. split.
  - exists l. split; [done|].
    apply at_index_Some in Hl as (n & _ & Hn).
    apply Hext; [by eapply list_elem_of_lookup_2 | done].
  - intros j l' Hj HQ. apply (Hleast j l' Hj).
    apply at_index_Some in Hj as (n & _ & Hn).
    apply Hext; [by eapply list_elem_of_lookup_2 | done].
Qed.

Lemma no_index_ext (P Q : loc → Prop) arr :
  (∀ l, l ∈ arr → (P l ↔ Q l)) → no_index P arr → no_index Q arr.
Proof.
  intros Hext Hnone j l Hj HQ. apply (Hnone j l Hj).
  apply at_index_Some in Hj as (n & _ & Hn).
  apply Hext; [by eapply list_elem_of_lookup_2 | done].
Qed.

Lemma search_outcome_ext (P Q : loc → Prop) state after :
  (∀ l, l ∈ items state → (P l ↔ Q l)) →
  search_outcome P state after → search_outcome Q state after.
Proof.
  intros Hext [(i & Hfirst & ? & ?)|[[Hnone|(i & Hfirst & ?)] ?]].
  - left. exists i. eauto using first_index_ext.
  - right. split; [left; eauto using no_index_ext | done].
  - right. split; [right; exists i; eauto using first_index_ext | done].
Qed.

(** C3 (as amended).  After Search with value [v] the search query is the
    old one followed by [v.toLowerCase()].  The active index becomes the
    index of the first item that is not disabled and whose stored
    [textValue] starts with that buffer, compared as stored, when there
    is such an item and its index is not the active one already; it is
    unchanged otherwise.  When the resulting buffer and the stored labels
    are their own [toLowerCase()], that is the same as comparing the
    [toLowerCase()] of both sides. *)
Theorem Search_moves_to_first_match h state value :
  let after := (stateReducer calculateActiveIndex h state (Search value)).1 in
  let buffer := searchQuery state +:+ toLowerCase value in
  searchQuery after = buffer ∧
  search_outcome (label_starts_with h buffer) state after ∧
  (lowercased h after →
   search_outcome (label_starts_with_ci h buffer) state after).
Proof.
  intros after buffer.
  destruct (Search_outcome_exact h state value) as [Hq Hexact].
  split_and!; [done..|]. intros [Hbuf Hlabels].
  assert (items after = items state) as Hitems.
  { unfold after. simpl. unfold reduce_Search. by destruct (_ || _)%bool. }
  fold after in Hq. rewrite Hq in Hbuf. rewrite Hitems in Hlabels.
  change (toLowerCase buffer = buffer) in Hbuf.
  apply (search_outcome_ext (label_starts_with h buffer)); [|done].
  intros l Hl. unfold label_starts_with, label_starts_with_ci. rewrite Hbuf.
  split; intros (Hdis & t & Ht & Hpre); (split; [done|]); exists t;
    (split; [done|]); by rewrite (Hlabels l t Hl Ht) in *.
Qed.
End MenuFacts.

(** ** GoToItem with the first and last moves *)

Section GoToItemFacts.
Context {Event : Type} `{!JsString}.
Variable other : Focus → Resolvers → option Z.
Implicit Types (h : @Heap Event) (state : StateDefinition).

Lemma GoToItem_active_index calc h state focus :
  activeItemIndex (stateReducer calc h state (GoToItem focus)).1 =
  calc focus
    {| resolveItems := λ _, items state;
       resolveActiveIndex := λ _, activeItemIndex state;
       resolveId := λ item, id (item_at h item);
       resolveDisabled := λ item, disabled (current h (dataRef (item_at h item))) |}.
Proof.
  simpl. unfold reduce_GoToItem.
  destruct (String.eqb (searchQuery state) ""); simpl; [|done].
  case_bool_decide; simpl; done.
Qed.

Lemma list_find_first_index (P : loc → Prop) `{∀ x, Decision (P x)} arr :
  match list_find P arr with
  | Some (i, _) => first_index P arr (Z.of_nat i)
  | None => no_index P arr
  end.
Proof.
  destruct (list_find P arr) as [[i x]|] eqn:Hfind.
  - apply list_find_Some in Hfind as (Hi & HP & Hleast). split.
    + exists x. by rewrite at_index_of_nat.
    + intros j l Hj Hl. apply at_index_Some in Hj as (j' & -> & Hj).
      destruct (decide (j' < i)%nat) as [Hlt|]; [|lia].
      by destruct (Hleast j' l Hj Hlt).
  - apply list_find_None in Hfind. rewrite Forall_lookup in Hfind.
    intros j l Hj. apply at_index_Some in Hj as (j' & -> & Hj). eauto.
Qed.

Lemma list_find_reverse_last_index (P : loc → Prop) `{∀ x, Decision (P x)} arr :
  match list_find P (reverse arr) with
  | Some (i, _) => last_index P arr (Z.of_nat (length arr) - 1 - Z.of_nat i)
  | None => no_index P arr
  end.
Proof.
  destruct (list_find P (reverse arr)) as [[i x]|] eqn:Hfind.
  - apply list_find_Some in Hfind as (Hi & HP & Hleast).
    apply reverse_lookup_Some in Hi as [Hi Hlen].
    replace (Z.of_nat (length arr) - 1 - Z.of_nat i)
      with (Z.of_nat (length arr - S i)) by lia.
    split.
    + exists x. by rewrite at_index_of_nat.
    + intros j l Hj Hl. apply at_index_Some in Hj as (j' & -> & Hj).
      pose proof (lookup_lt_Some _ _ _ Hj) as Hj'.
      destruct (decide (j' ≤ length arr - S i)%nat) as [|Hgt]; [lia|].
      destruct (Hleast (length arr - S j')%nat l); [|lia|done].
      apply reverse_lookup_Some. split; [|lia].
      rewrite <- Hj. f_equal. lia.
  - apply list_find_None in Hfind. rewrite Forall_lookup in Hfind.
    intros j l Hj HP. apply at_index_Some in Hj as (j' & -> & Hj).
    pose proof (lookup_lt_Some _ _ _ Hj) as Hj'.
    apply (Hfind (length arr - S j')%nat l); [|done].
    apply reverse_lookup_Some. split; [|lia].
    rewrite <- Hj. f_equal. lia.
Qed.

(** C4.  GoToItem with focus First (Last) leaves the active index at the
    first (last) item of the sequence with [dataRef.current.disabled =
    false]; it leaves it null when every item is disabled, which includes
    the empty sequence.  [calculateActiveIndex] is the one modelled from
    the spec. *)
Theorem GoToItem_First_Last h state :
  let go focus :=
    (stateReducer (calculateActiveIndex_spec other) h state (GoToItem focus)).1 in
  match activeItemIndex (go First) with
  | Some i => first_index (enabled h) (items state) i
  | None => no_index (enabled h) (items state)
  end ∧
  match activeItemIndex (go Last) with
  | Some i => last_index (enabled h) (items state) i
  | None => no_index (enabled h) (items state)
  end.
Proof.
  intros go. unfold go. rewrite !GoToItem_active_index. simpl. split.
  - pose proof (list_find_first_index
                  (λ x, disabled (current h (dataRef (item_at h x))) = false)
                  (items state)) as Hfirst.
    by destruct (list_find _ (items state)) as [[i x]|].
  - pose proof (list_find_reverse_last_index
                  (λ x, disabled (current h (dataRef (item_at h x))) = false)
                  (items state)) as Hlast.
    by destruct (list_find _ (reverse (items state))) as [[i x]|].
Qed.
End GoToItemFacts.

(** ** [useMenuContext] *)

Section ContextFacts.
Context {Dispatch : Type}.

Lemma prefix_append (s t : string) : String.prefix s (s +:+ t) = true.
Proof.
  induction s as [|c s IH]; simpl; [by destruct t|].
  by destruct (Ascii.ascii_dec c c) as [_|[]].
Qed.

Lemma includes_prefix (s t : string) : includes (s +:+ t) s = true.
Proof.
  assert (∀ hay, includes hay s = true ↔
                 String.prefix s hay = true ∨
                 match hay with
                 | EmptyString => false
                 | String _ rest => includes rest s
                 end = true) as Hunfold.
  { intros []; simpl; apply orb_true_iff. }
  apply Hunfold. left. apply prefix_append.
Qed.

Lemma includes_append_r (s t needle : string) :
  includes t needle = true → includes (s +:+ t) needle = true.
Proof.
  intros Ht. induction s as [|c s IH]; simpl; [done|].
  rewrite IH. apply orb_true_r.
Qed.

Lemma append_assoc (s t u : string) : (s +:+ t) +:+ u = s +:+ (t +:+ u).
Proof.
  induction s as [|c s IH]; [done|].
  change (String c ((s +:+ t) +:+ u) = String c (s +:+ (t +:+ u))).
  by rewrite IH.
Qed.

(** C8.  With no enclosing provider (the context is null) [useMenuContext]
    throws, and the message names the sub-widget it was called for
    ("Unknown" when none was given) and the missing parent [<Menu />];
    with a provider it returns the provider's [[state, dispatch]] pair. *)
Theorem useMenuContext_outcome (component : option string)
    (bag : StateDefinition * Dispatch) :
  (∃ message,
     useMenuContext (Dispatch:=Dispatch) None component = Throw message ∧
     message = "<" +:+ default "Unknown" component
                +:+ " /> is missing a parent <Menu /> component." ∧
     includes message ("<" +:+ default "Unknown" component +:+ " />") = true ∧
     includes message "missing a parent <Menu />" = true) ∧
  useMenuContext (Some bag) component = Return bag.
Proof.
  split; [|done]. eexists. split; [done|]. split; [done|].
  set (name := default "Unknown" component). split.
  - assert ("<" +:+ name +:+ " /> is missing a parent <" +:+ Menu_name
              +:+ " /> component."
            = ("<" +:+ name +:+ " />") +:+ " is missing a parent <Menu /> component.")
      as ->; [|apply includes_prefix].
    by rewrite !append_assoc.
  - apply (includes_append_r "<"), includes_append_r. done.
Qed.
End ContextFacts.

(** ** [compareNumbers] *)

Section CompareFacts.
Lemma SFcompare_antisym x y :
  SFcompare y x = option_map CompOpp (SFcompare x y).
Proof.
  destruct x as [[]| []| |[] m1 e1], y as [[]| []| |[] m2 e2]; simpl; try done.
  - rewrite (Z.compare_antisym e1 e2).
    destruct (e1 ?= e2)%Z; simpl; try done.
    rewrite (Pos.compare_cont_antisym m1 m2 Eq).
    by destruct (Pos.compare_cont Eq m1 m2).
  - rewrite (Z.compare_antisym e1 e2).
    destruct (e1 ?= e2)%Z; simpl; try done.
    rewrite (Pos.compare_cont_antisym m1 m2 Eq).
    by destruct (Pos.compare_cont Eq m1 m2).
Qed.

Lemma ltb_asym (x y : float) :
  PrimFloat.ltb x y = true → PrimFloat.ltb y x = false.
Proof.
  rewrite !ltb_spec. unfold SFltb.
  rewrite (SFcompare_antisym (Prim2SF x) (Prim2SF y)).
  by destruct (SFcompare (Prim2SF x) (Prim2SF y)) as [[]|].
Qed.

(** C10.  [compareNumbers(a, b) = -compareNumbers(b, a)] for all optional
    numbers [a] and [b]; the result is 0 when both are absent, a present
    value is greater than an absent one, and two present values are
    ordered by [<] and [>]. *)
Theorem compareNumbers_antisymmetric (a b : option float) :
  compareNumbers a b = - compareNumbers b a ∧
  compareNumbers None None = 0 ∧
  (∀ x, compareNumbers (Some x) None = 1 ∧ compareNumbers None (Some x) = -1) ∧
  (∀ x y, compareNumbers (Some x) (Some y) =
            if PrimFloat.ltb x y then -1 else if PrimFloat.ltb y x then 1 else 0).
Proof.
  split_and!; [|done..].
  destruct a as [x|], b as [y|]; simpl; try done.
  destruct (PrimFloat.ltb x y) eqn:Hxy.
  - by rewrite (ltb_asym x y Hxy).
  - by destruct (PrimFloat.ltb y x).
Qed.
End CompareFacts.

(** ** The theorems at concrete states *)

Section Evaluation.
Import Samples.
#[local] Existing Instance ascii_strings.

Lemma register_unregister_active_index_ok_witness :
  active_index_ok mounted.2 mounted.1.
Proof.
  apply (register_unregister_active_index_ok no_move heap_xy 0%nat 1%nat 0%nat
           mount_unmount).
  - repeat constructor.
  - reflexivity.
Defined.

(** With ids "a", "b", "c" and "c" active: unmounting "c" clears the
    active index, unmounting "a" moves it from 2 to 1, still on "c". *)
Lemma UnregisterItem_tracks_active_item_witness :
  activeItemIndex (stateReducer no_move three.2 three.1 (UnregisterItem "c")).1 = None ∧
  (let after := (stateReducer no_move three.2 three.1 (UnregisterItem "a")).1 in
   items after = [1%nat; 2%nat] ∧ activeItemIndex after = Some 1 ∧
   at_index (items after) 1 = Some 2%nat).
Proof.
  assert (distinct_ids three.2 three.1) as Hids.
  { apply (bool_decide_unpack _). vm_compute. exact I. }
  destruct (UnregisterItem_tracks_active_item no_move three.2 three.1 2 2%nat
              Hids eq_refl eq_refl) as [Hsame Hother].
  split; [exact Hsame|].
  apply (Hother 0 0%nat eq_refl). discriminate.
Defined.

(** Two items share the id "a".  With the second one active, unmounting
    "a" removes the first and the second stays active, at index 0; with
    the first one active, unmounting by the id of the second clears the
    active index. *)
Lemma UnregisterItem_duplicate_id_counterexample :
  (activeItemIndex twins.1 = Some 1 ∧
   at_index (items twins.1) 1 = Some 1%nat ∧
   activeItemIndex
     (stateReducer no_move twins.2 twins.1
        (UnregisterItem (id (item_at twins.2 1%nat)))).1 = Some 0) ∧
  (activeItemIndex twins_first.1 = Some 0 ∧
   at_index (items twins_first.1) 1 = Some 1%nat ∧
   activeItemIndex
     (stateReducer no_move twins_first.2 twins_first.1
        (UnregisterItem (id (item_at twins_first.2 1%nat)))).1 = None).
Proof. vm_compute. done. Qed.

(** Labels "x", "x" (disabled), "y", an empty buffer, "y" active: typing
    "X" moves the active index to the first item. *)
Lemma Search_moves_to_first_match_witness :
  let after := (stateReducer no_move three_cleared.2 three_cleared.1 (Search "X")).1 in
  searchQuery after = "x" ∧ activeItemIndex after = Some 0 ∧
  search_outcome (label_starts_with_ci three_cleared.2 "x") three_cleared.1 after.
Proof.
  split; [reflexivity|]. split; [reflexivity|].
  destruct (Search_moves_to_first_match no_move three_cleared.2 three_cleared.1 "X")
    as (_ & _ & Hci).
  apply Hci. split; [reflexivity|].
  intros l t Hl Ht.
  repeat (apply elem_of_cons in Hl as [->|Hl]);
    [..|by apply elem_of_nil in Hl];
    vm_compute in Ht; injection Ht as <-; reflexivity.
Defined.

(** The stored label is "Apple" and "a" is typed.  Compared without
    regard to case the item at index 0 matches, and it is not the active
    one; the reducer finds no match and the active index stays null. *)
Lemma Search_capitalised_label_counterexample :
  let after := (stateReducer no_move apple.2 apple.1 (Search "a")).1 in
  first_index (label_starts_with_ci apple.2 (searchQuery after)) (items apple.1) 0 ∧
  activeItemIndex apple.1 ≠ Some 0 ∧
  activeItemIndex after = None.
Proof.
  split_and!; [|done..]. split.
  - exists 0%nat. split; [done|]. split; [done|]. by exists "Apple".
  - intros j l Hj _. apply at_index_Some in Hj as (n & -> & _). lia.
Qed.

(** A closed menu with an active item (type-ahead reached the reducer
    while the menu was closed): CloseMenu hands the state back, active
    index included. *)
Lemma CloseMenu_closed_menu_counterexample :
  menuState closed_active.1 = Closed ∧
  activeItemIndex closed_active.1 = Some 0 ∧
  activeItemIndex
    (stateReducer no_move closed_active.2 closed_active.1 CloseMenu).1 = Some 0.
Proof. vm_compute. done. Qed.
End Evaluation.

(** ** The reducer table as a whole *)

Section TableFacts.
Context {Event : Type} `{!JsString}.
Variable calculateActiveIndex : Focus → Resolvers → option Z.
Implicit Types (h : @Heap Event) (state : StateDefinition).


(** *** The search buffer *)

(** X2.  ClearSearch starts the search over.  Whatever the search query
    was, ClearSearch leaves the empty string, and the Search that follows
    it leaves exactly the [toLowerCase()] of its own value; while a Search
    that follows another Search leaves the query of the first one followed
    by the [toLowerCase()] of its own value. *)
Theorem ClearSearch_starts_over h state v w :
  let step s a := (stateReducer calculateActiveIndex h s a).1 in
  searchQuery (step state ClearSearch) = "" ∧
  searchQuery (step (step state ClearSearch) (Search v)) = toLowerCase v ∧
  searchQuery (step (step state (Search v)) (Search w))
    = (searchQuery state +:+ toLowerCase v) +:+ toLowerCase w.
Proof.
  assert (∀ s x, searchQuery (stateReducer calculateActiveIndex h s (Search x)).1
                 = searchQuery s +:+ toLowerCase x) as Hsearch.
  { intros s x. simpl. unfold reduce_Search. by destruct (_ || _)%bool. }
  assert (searchQuery (stateReducer calculateActiveIndex h state ClearSearch).1 = "")
    as Hclear.
  { simpl. unfold reduce_ClearSearch.
    destruct (String.eqb _ _) eqn:Hq; [by apply String.eqb_eq in Hq | done]. }
  intros step. unfold step. split_and!.
  - done.
  - by rewrite Hsearch, Hclear.
  - by rewrite !Hsearch.
Qed.
End TableFacts.

(** ** The active index stays in range *)

Section RangeFacts.
Context {Event : Type} `{!JsString}.
Variable calculateActiveIndex : Focus → Resolvers → option Z.
Hypothesis calc_in_range : keeps_in_range calculateActiveIndex.
Implicit Types (h : @Heap Event) (state : StateDefinition).

Lemma index_in_range_delete (arr : list loc) (k n : nat) l :
  arr !! n = Some l → k ≠ n → l ∈ delete k arr.
Proof.
  intros Hn Hkn. apply list_elem_of_lookup.
  exists (if decide (n < k)%nat then n else (n - 1)%nat).
  rewrite list_lookup_delete, <- Hn. f_equal.
  destruct (decide (n < k)%nat);
    [by rewrite decide_True | rewrite decide_False by lia; lia].
Qed.

Lemma stateReducer_in_range h state action :
  active_index_in_range state →
  active_index_in_range (stateReducer calculateActiveIndex h state action).1.
Proof.
  unfold active_index_in_range. intros Hin.
  destruct action as [| |focus|value| |rid rref|uid|pred].
  - simpl. unfold reduce_CloseMenu. by destruct (decide _).
  - simpl. unfold reduce_OpenMenu. by destruct (decide _).
  - rewrite GoToItem_active_index.
    assert (items (stateReducer calculateActiveIndex h state (GoToItem focus)).1
            = items state) as ->.
    { simpl. unfold reduce_GoToItem. by destruct (_ && _)%bool. }
    by apply (calc_in_range focus).
  - simpl. unfold reduce_Search.
    set (buffer := searchQuery state +:+ toLowerCase value).
    destruct (findIndex_cases (search_hit h buffer) (items state))
      as [[-> _]|(i & x & -> & Hi & _)]; [done|].
    destruct (_ || _)%bool; simpl; [done|].
    rewrite at_index_of_nat. eauto.
  - simpl. unfold reduce_ClearSearch. by destruct (String.eqb _ _).
  - simpl. destruct (activeItemIndex state) as [i|]; [|done]. simpl in *.
    destruct Hin as [l Hl]. apply at_index_Some in Hl as (n & -> & Hn).
    rewrite at_index_of_nat. exists l. by apply lookup_app_l_Some.
  - cbv [stateReducer reduce_UnregisterItem fst snd].
    destruct (splice_or_keep (items state) _
                (λ a, String.eqb (id (item_at h a)) uid) eq_refl)
      as (k & Hnext & Hk).
    rewrite Hnext. simpl.
    destruct (activeItemIndex state) as [i|] eqn:Hactive;
      [|by rewrite bool_decide_eq_false_2].
    case_bool_decide as Hidx; [done|].
    destruct Hin as [l Hl]. rewrite Hl.
    apply at_index_Some in Hl as (n & -> & Hn).
    assert (k ≠ n) as Hkn.
    { destruct Hk as [Hk|Hk].
      - intros ->. apply Hidx. by rewrite Hk.
      - apply lookup_lt_Some in Hn. lia. }
    destruct (indexOf_elem _ l (index_in_range_delete _ k n l Hn Hkn))
      as (j & -> & Hj).
    simpl. rewrite at_index_of_nat. eauto.
  - simpl. unfold reduce_SetShouldClose. case_bool_decide; [done|].
    by destruct pred.
Qed.

Lemma Items_handleKeyDown_completion (Keys : KeyNames) h state key (event : Event) :
  (Items_handleKeyDown Keys h state key event).2 = Return () ∨
  (Items_handleKeyDown Keys h state key event).2 = (Items_Enter h state event).2.
Proof.
  unfold Items_handleKeyDown.
  destruct (Items_Enter h state event) as [effects completion].
  repeat match goal with
         | |- context [if ?b then _ else _] => destruct b
         end; simpl; auto.
Qed.

Lemma dispatch_all_in_range actions : ∀ h state,
  active_index_in_range state →
  active_index_in_range (dispatch_all calculateActiveIndex h state actions).1.
Proof.
  induction actions as [|a rest IH]; intros h state Hin; [done|]. simpl.
  pose proof (stateReducer_in_range h state a Hin) as Hstep.
  destruct (stateReducer calculateActiveIndex h state a) as [state' h'].
  by apply IH.
Qed.

(** X4.  As long as [calculateActiveIndex] answers null or an index in range
    when it is handed one, every state reached from the one [Menu] creates,
    by any actions in any order, has an active index that is null or an
    index into the current items: [state.items[state.activeItemIndex]] is
    never [undefined], and the index is never the [-1] of [indexOf]. *)
Theorem activeItemIndex_always_in_range h0 button items_ close actions :
  active_index_in_range
    (dispatch_all calculateActiveIndex h0 (initialState button items_ close) actions).1.
Proof. by apply dispatch_all_in_range. Qed.

(** X5.  Under the same condition no widget trips over the active index: in
    every state reached from the one [Menu] creates, [Item] computes its
    [active] flag and [Items.handleKeyDown] runs to its end, for every key
    and every event, without a TypeError. *)
Theorem widgets_never_throw h0 button items_ close actions h
    (Keys : KeyNames) key (event : Event) item_id :
  let state :=
    (dispatch_all calculateActiveIndex h0 (initialState button items_ close) actions).1 in
  (∃ flag, Item_active h state item_id = Return flag) ∧
  (Items_handleKeyDown Keys h state key event).2 = Return ().
Proof.
  intros state.
  assert (active_index_in_range state) as Hin by (by apply dispatch_all_in_range).
  unfold active_index_in_range in Hin.
  assert ((Items_Enter h state event).2 = Return ()) as Henter.
  { unfold Items_Enter. destruct (fn_at h (shouldClose state) event); [|done].
    destruct (activeItemIndex state) as [i|]; [|done].
    by destruct Hin as [l ->]. }
  split.
  - unfold Item_active. destruct (activeItemIndex state) as [i|]; [|eauto].
    destruct Hin as [l ->]. eauto.
  - destruct (Items_handleKeyDown_completion Keys h state key event) as [->| ->];
      done.
Qed.
End RangeFacts.

(** ** Mounting and unmounting an item *)

Section MountFacts.
Context {Event : Type} `{!JsString}.
Variable calculateActiveIndex : Focus → Resolvers → option Z.
Implicit Types (h : @Heap Event) (state : StateDefinition).

Lemma indexOf_NoDup (arr : list loc) (n : nat) l :
  NoDup arr → arr !! n = Some l → indexOf arr (Some l) = Z.of_nat n.
Proof.
  intros Hnd Hn. unfold indexOf. apply (findIndex_unique _ _ n l Hn).
  - apply Nat.eqb_refl.
  - intros j y Hj Hy. apply Nat.eqb_eq in Hy as ->.
    by apply (NoDup_lookup arr j n l).
Qed.

Lemma findIndex_absent {A} (p : A → bool) (arr : list A) :
  (∀ x, x ∈ arr → p x = false) → findIndex p arr = -1.
Proof.
  intros Hnone.
  destruct (findIndex_cases p arr) as [[-> _]|(i & x & _ & Hi & Hx & _)]; [done|].
  rewrite (Hnone x) in Hx; [done | by eapply list_elem_of_lookup_2].
Qed.

(** X6.  UnregisterItem with an id that no item carries changes nothing, in a
    state whose items are distinct records and whose active index is null
    or in range. *)
Theorem UnregisterItem_unknown_id h state uid :
  id_unused h state uid → NoDup (items state) → active_index_in_range state →
  stateReducer calculateActiveIndex h state (UnregisterItem uid) = (state, h).
Proof.
  intros Hunused Hnd Hin. simpl. f_equal.
  unfold reduce_UnregisterItem.
  rewrite (findIndex_absent (λ a, String.eqb (id (item_at h a)) uid) (items state)).
  2:{ intros x Hx. apply String.eqb_neq. by apply Hunused. }
  simpl. unfold active_index_in_range in Hin.
  destruct state as [ms br ir its q [i|] sc]; simpl in *; [|done].
  destruct Hin as [l Hl]. rewrite Hl.
  apply at_index_Some in Hl as (n & -> & Hn).
  rewrite bool_decide_eq_false_2 by (intros [=]; lia).
  by rewrite (indexOf_NoDup its n l Hnd Hn).
Qed.

(** X7.  Mounting an item and unmounting it again gives the state back:
    RegisterItem with an id not in use, followed by UnregisterItem with that
    id, ends in the state it started from, when the items are distinct
    allocated records and the active index is null or in range. *)
Theorem RegisterItem_UnregisterItem_round_trip h state rid rref :
  allocated h state → id_unused h state rid →
  NoDup (items state) → active_index_in_range state →
  (dispatch_all calculateActiveIndex h state
     [RegisterItem rid rref; UnregisterItem rid]).1 = state.
Proof.
  intros Halloc Hunused Hnd Hin.
  cbv [dispatch_all stateReducer reduce_RegisterItem alloc_item fst snd].
  unfold reduce_UnregisterItem. simpl.
  set (h' := {| next := S (next h);
                item_at := <[next h := {| id := rid; dataRef := rref |}]> (item_at h);
                current := current h; fn_at := fn_at h |}).
  unfold allocated in Halloc. rewrite list.Forall_forall in Halloc.
  assert (findIndex (λ a, String.eqb (id (<[next h := {| id := rid; dataRef := rref |}]>
                                          (item_at h) a)) rid)
            (items state ++ [next h]) = Z.of_nat (length (items state))) as ->.
  { apply (findIndex_found _ _ _ (next h)).
    - by rewrite lookup_app_r, Nat.sub_diag.
    - rewrite fn_lookup_insert. apply String.eqb_refl.
    - intros j y Hj Hlt. rewrite lookup_app_l in Hj by done.
      apply list_elem_of_lookup_2 in Hj.
      rewrite fn_lookup_insert_ne by (specialize (Halloc y Hj); simpl in *; lia).
      apply String.eqb_neq. by apply Hunused. }
  destruct (Z.eqb_spec (Z.of_nat (length (items state))) (-1)) as [|_]; [lia|].
  simpl.
  assert (splice_one (Z.of_nat (length (items state))) (items state ++ [next h])
          = items state) as ->.
  { rewrite splice_one_in_range by (rewrite length_app; simpl; lia).
    by rewrite (delete_middle (items state) []), app_nil_r. }
  unfold active_index_in_range in Hin.
  destruct state as [ms br ir its q [i|] sc]; simpl in *; [|done].
  destruct Hin as [l Hl]. apply at_index_Some in Hl as (n & -> & Hn).
  pose proof (lookup_lt_Some _ _ _ Hn) as Hlen.
  rewrite bool_decide_eq_false_2 by (intros [=]; lia).
  rewrite at_index_of_nat, lookup_app_l, Hn by done.
  by rewrite (indexOf_NoDup its n l Hnd Hn).
Qed.
End MountFacts.

(** ** [compareNumbers] as an order *)

Section OrderFacts.
Lemma SFcompare_refl x : x ≠ S754_nan → SFcompare x x = Some Eq.
Proof.
  destruct x as [[]|[]| |[] m e]; simpl; try done;
    by rewrite Z.compare_refl, Pos.compare_cont_refl.
Qed.

Lemma lex_Lt (e1 e2 : Z) (m1 m2 : positive) :
  match (e1 ?= e2)%Z with
  | Lt => Lt
  | Gt => Gt
  | Eq => Pos.compare_cont Eq m1 m2
  end = Lt ↔ (e1 < e2 ∨ (e1 = e2 ∧ Z.pos m1 < Z.pos m2)).
Proof.
  destruct (Z.compare_spec e1 e2) as [->| |]; [|split; intros; (done || lia)..].
  change (Pos.compare_cont Eq m1 m2) with (m1 ?= m2)%positive.
  destruct (Pos.compare_spec m1 m2); simpl; split; intros; (done || lia).
Qed.

Lemma lex_Gt (e1 e2 : Z) (m1 m2 : positive) :
  match (e1 ?= e2)%Z with
  | Lt => Gt
  | Gt => Lt
  | Eq => CompOpp (Pos.compare_cont Eq m1 m2)
  end = Lt ↔ (e2 < e1 ∨ (e1 = e2 ∧ Z.pos m2 < Z.pos m1)).
Proof.
  destruct (Z.compare_spec e1 e2) as [->| |]; [|split; intros; (done || lia)..].
  change (Pos.compare_cont Eq m1 m2) with (m1 ?= m2)%positive.
  destruct (Pos.compare_spec m1 m2); simpl; split; intros; (done || lia).
Qed.

Lemma SFcompare_Lt_trans x y z :
  SFcompare x y = Some Lt → SFcompare y z = Some Lt → SFcompare x z = Some Lt.
Proof.
  destruct x as [[]|[]| |[] mx ex], y as [[]|[]| |[] my ey],
    z as [[]|[]| |[] mz ez]; simpl; try done.
  - intros [= Hxy%lex_Gt] [= Hyz%lex_Gt]. f_equal. apply lex_Gt. lia.
  - intros [= Hxy%lex_Lt] [= Hyz%lex_Lt]. f_equal. apply lex_Lt. lia.
Qed.

Lemma ltb_trans (x y z : float) :
  PrimFloat.ltb x y = true → PrimFloat.ltb y z = true → PrimFloat.ltb x z = true.
Proof.
  rewrite !ltb_spec. unfold SFltb.
  destruct (SFcompare (Prim2SF x) (Prim2SF y)) as [[]|] eqn:Hxy; try done.
  destruct (SFcompare (Prim2SF y) (Prim2SF z)) as [[]|] eqn:Hyz; try done.
  by rewrite (SFcompare_Lt_trans _ _ _ Hxy Hyz).
Qed.

Lemma ltb_irrefl (x : float) : PrimFloat.ltb x x = false.
Proof.
  destruct (PrimFloat.ltb x x) eqn:Hx; [|done].
  by rewrite (ltb_asym x x Hx) in Hx.
Qed.

Lemma is_nan_Prim2SF (x : float) :
  PrimFloat.is_nan x = true → Prim2SF x = S754_nan.
Proof.
  unfold PrimFloat.is_nan. rewrite FloatAxioms.eqb_spec. unfold SFeqb.
  destruct (Prim2SF x) as [s|s| |s m e] eqn:Hx; [| |done|];
    by rewrite SFcompare_refl.
Qed.

(** X8.  [compareNumbers(a, a)] is 0 for every optional number, NaN included,
    and an answer other than 0 is transitive: when [compareNumbers(a, b)]
    and [compareNumbers(b, c)] are the same non-zero answer, it is the
    answer of [compareNumbers(a, c)] too, absent values and NaN included. *)
Theorem compareNumbers_strict_order (a b c : option float) :
  compareNumbers a a = 0 ∧
  (compareNumbers a b = compareNumbers b c → compareNumbers a b ≠ 0 →
   compareNumbers a c = compareNumbers a b).
Proof.
  split.
  - destruct a as [x|]; simpl; [|done]. by rewrite ltb_irrefl.
  - destruct a as [x|], b as [y|], c as [z|]; simpl; try done.
    destruct (PrimFloat.ltb x y) eqn:Hxy.
    + destruct (PrimFloat.ltb y z) eqn:Hyz;
        [|by destruct (PrimFloat.ltb z y)].
      by rewrite (ltb_trans x y z Hxy Hyz).
    + destruct (PrimFloat.ltb y x) eqn:Hyx; [|done].
      destruct (PrimFloat.ltb y z) eqn:Hyz; [done|].
      destruct (PrimFloat.ltb z y) eqn:Hzy; [|done].
      intros _ _. rewrite (ltb_trans z y x Hzy Hyx).
      by rewrite (ltb_asym z x (ltb_trans z y x Hzy Hyx)).
Qed.

(** X9.  A NaN is ordered neither before nor after any number: against every
    present number [compareNumbers] answers 0, on either side, while
    against an absent one the NaN still counts as present. *)
Theorem compareNumbers_nan (x y : float) :
  PrimFloat.is_nan x = true →
  compareNumbers (Some x) (Some y) = 0 ∧
  compareNumbers (Some y) (Some x) = 0 ∧
  compareNumbers (Some x) None = 1 ∧
  compareNumbers None (Some x) = -1.
Proof.
  intros Hnan%is_nan_Prim2SF.
  assert (PrimFloat.ltb x y = false) as Hxy.
  { rewrite ltb_spec. unfold SFltb. by rewrite Hnan. }
  assert (PrimFloat.ltb y x = false) as Hyx.
  { rewrite ltb_spec. unfold SFltb. rewrite Hnan.
    by destruct (Prim2SF y) as [[]|[]| |[] m e]. }
  simpl. by rewrite Hxy, Hyx.
Qed.
End OrderFacts.

(** ** [canUseIntersectionObserver] *)

Section ObserverFacts.
(** X10.  The first call decides: it answers true exactly when [window] exists
    and all three membership tests succeed, and every later call gives
    that same answer, false as well as true, whatever the surroundings
    have become in the meantime. *)
Theorem canUseIntersectionObserver_memoised (first later : Surroundings) :
  let call1 := canUseIntersectionObserver None first in
  let call2 := canUseIntersectionObserver call1.2 later in
  call2 = call1 ∧
  (call1.1 = true ↔ first = Window true (Some true)).
Proof.
  simpl. split; [done|].
  destruct first as [|[] [[]|]]; simpl; split; (done || by intros [=]).
Qed.
End ObserverFacts.

(** ** The widgets *)

Section WidgetFacts.
Context {Event : Type} `{!JsString}.
Variable calculateActiveIndex : Focus → Resolvers → option Z.
Implicit Types (h : @Heap Event) (state : StateDefinition) (Keys : KeyNames).

Local Ltac in_list := solve [rewrite ?elem_of_cons; auto 20].
Local Ltac clash H Heq := solve [apply H; rewrite <- Heq; in_list].

(** X11.  An item reports itself active exactly when the list names its id in
    [aria-activedescendant]; so two items that both report themselves
    active carry the same id. *)
Theorem Item_active_iff_activedescendant h state item_id :
  Item_active h state item_id = Return true ↔
  aria_activedescendant h state = Some item_id.
Proof.
  unfold Item_active, aria_activedescendant.
  destruct (activeItemIndex state) as [i|]; [|done].
  destruct (at_index (items state) i) as [l|]; simpl; [|done].
  split.
  - intros [= Heq]. apply String.eqb_eq in Heq. by rewrite Heq.
  - intros [= <-]. by rewrite String.eqb_refl.
Qed.

Lemma unnamed_key_default Keys h state key (event : Event) :
  unnamed_key Keys key →
  Items_handleKeyDown Keys h state key event =
    if (code_units key =? 1)%nat
    then ([searchDisposables_dispose; dispatch (Search key);
           dispatch_setTimeout ClearSearch 350], Return ())
    else ([searchDisposables_dispose], Return ()).
Proof.
  unfold unnamed_key. rewrite !not_elem_of_cons.
  intros (H1 & H2 & H3 & H4 & H5 & H6 & H7 & H8 & H9 & H10 & _).
  apply String.eqb_neq in H1, H2, H3, H4, H5, H6, H7, H8, H9, H10.
  unfold Items_handleKeyDown.
  rewrite H1, H2, H3, H4, H5, H6, H7, H8, H9, H10. simpl.
  by destruct (code_units key =? 1)%nat.
Qed.

Lemma distinct_keys_Enter Keys h state (event : Event) :
  distinct_keys Keys →
  Items_handleKeyDown Keys h state (Keys_Enter Keys) event =
    (searchDisposables_dispose :: (Items_Enter h state event).1,
     (Items_Enter h state event).2).
Proof.
  unfold distinct_keys. rewrite !list.NoDup_cons. intros (Hspace & _).
  unfold Items_handleKeyDown.
  assert (String.eqb (Keys_Enter Keys) (Keys_Space Keys) = false) as ->.
  { apply String.eqb_neq. intros Heq. apply Hspace. rewrite <- Heq. in_list. }
  rewrite String.eqb_refl. by destruct (Items_Enter h state event).
Qed.

Lemma distinct_keys_Escape Keys h state (event : Event) :
  distinct_keys Keys →
  Items_handleKeyDown Keys h state (Keys_Escape Keys) event =
    if fn_at h (shouldClose state) event
    then ([searchDisposables_dispose; preventDefault; stopPropagation;
           dispatch CloseMenu; focus_button_nextFrame], Return ())
    else ([searchDisposables_dispose], Return ()).
Proof.
  unfold distinct_keys. rewrite !list.NoDup_cons.
  intros (H1 & H2 & H3 & H4 & H5 & H6 & H7 & H8 & _).
  unfold Items_handleKeyDown.
  repeat match goal with
         | |- context [String.eqb (Keys_Escape Keys) ?name] =>
             lazymatch name with
             | Keys_Escape Keys => fail
             | _ =>
                 let Hne := fresh in
                 assert (String.eqb (Keys_Escape Keys) name = false) as Hne
                   by (apply String.eqb_neq; intros Heq;
                       first [clash H1 Heq | clash H2 Heq | clash H3 Heq
                             | clash H4 Heq | clash H5 Heq | clash H6 Heq
                             | clash H7 Heq | clash H8 Heq]);
                 rewrite Hne
             end
         end.
  simpl. rewrite String.eqb_refl.
  by destruct (fn_at h (shouldClose state) event).
Qed.

Lemma Items_Enter_closes h state (event : Event) :
  if fn_at h (shouldClose state) event
  then dispatched (Items_Enter h state event).1 = [CloseMenu] ∧
       preventDefault ∈ (Items_Enter h state event).1
  else Items_Enter h state event = ([], Return ()).
Proof.
  unfold Items_Enter. destruct (fn_at h (shouldClose state) event); [|done].
  destruct (activeItemIndex state) as [i|]; [|split; [done | simpl; in_list]].
  destruct (at_index (items state) i); simpl; (split; [done | in_list]).
Qed.

(** X12.  The keys that close the list ask the close predicate first.  For Enter,
    for Escape, and for Space while no search is under way: when
    [state.shouldClose(event)] is false the handler only disposes of the
    search timers (nothing is dispatched, the default is not prevented);
    when it is true the handler prevents the default and dispatches
    CloseMenu and nothing else, after which the menu is Closed. *)
Theorem Items_closing_keys_ask_shouldClose Keys h state key (event : Event) :
  distinct_keys Keys →
  key = Keys_Enter Keys ∨ key = Keys_Escape Keys ∨
    (key = Keys_Space Keys ∧ searchQuery state = "") →
  let outcome := Items_handleKeyDown Keys h state key event in
  if fn_at h (shouldClose state) event
  then dispatched outcome.1 = [CloseMenu] ∧ preventDefault ∈ outcome.1 ∧
       menuState (dispatch_all calculateActiveIndex h state (dispatched outcome.1)).1
         = Closed
  else outcome = ([searchDisposables_dispose], Return ()).
Proof.
  intros Hkeys Hkey outcome.
  assert (menuState (reduce_CloseMenu state) = Closed) as Hclosed.
  { unfold reduce_CloseMenu. by destruct (decide _). }
  assert (outcome = (searchDisposables_dispose :: (Items_Enter h state event).1,
                     (Items_Enter h state event).2)
          ∨ outcome = if fn_at h (shouldClose state) event
                      then ([searchDisposables_dispose; preventDefault;
                             stopPropagation; dispatch CloseMenu;
                             focus_button_nextFrame], Return ())
                      else ([searchDisposables_dispose], Return ())) as [-> | ->].
  { unfold outcome. destruct Hkey as [->|[->|[-> Hquery]]].
    - left. by apply distinct_keys_Enter.
    - right. by apply distinct_keys_Escape.
    - left. unfold Items_handleKeyDown.
      rewrite String.eqb_refl, Hquery. simpl.
      by destruct (Items_Enter h state event). }
  - pose proof (Items_Enter_closes h state event) as Henter.
    destruct (fn_at h (shouldClose state) event).
    + destruct Henter as [Hd Hp]. simpl. rewrite Hd. simpl.
      split_and!; [done | in_list | done].
    + by rewrite Henter.
  - destruct (fn_at h (shouldClose state) event); [|done].
    simpl. split_and!; [done | in_list | done].
Qed.

(** X13.  Type-ahead.  A key that is none of the named keys and whose name has
    [length] 1 is dispatched as Search and arms the 350 ms timer that
    dispatches ClearSearch; the search query then ends in the
    [toLowerCase()] of that key.  Any other unnamed key (Shift, F1, ...) only
    disposes of the search timers. *)
Theorem Items_typeahead Keys h state key (event : Event) :
  unnamed_key Keys key →
  let outcome := Items_handleKeyDown Keys h state key event in
  if (code_units key =? 1)%nat
  then outcome = ([searchDisposables_dispose; dispatch (Search key);
                   dispatch_setTimeout ClearSearch 350], Return ()) ∧
       searchQuery (dispatch_all calculateActiveIndex h state (dispatched outcome.1)).1
         = searchQuery state +:+ toLowerCase key
  else outcome = ([searchDisposables_dispose], Return ()).
Proof.
  intros Hkey outcome. unfold outcome.
  rewrite (unnamed_key_default Keys h state key event Hkey).
  destruct (code_units key =? 1)%nat; [|done].
  split; [done|]. simpl. unfold reduce_Search. by destruct (_ || _)%bool.
Qed.

(** X14.  Space during type-ahead.  While the search query is not empty, Space
    is taken as one more character of the search: the handler prevents the
    default and dispatches Search with the key, nothing is closed or
    clicked, and no ClearSearch timer is armed in place of the one it
    disposed of. *)
Theorem Items_Space_extends_search Keys h state (event : Event) :
  searchQuery state ≠ "" →
  let outcome := Items_handleKeyDown Keys h state (Keys_Space Keys) event in
  outcome = ([searchDisposables_dispose; preventDefault; stopPropagation;
              dispatch (Search (Keys_Space Keys))], Return ()) ∧
  searchQuery (dispatch_all calculateActiveIndex h state (dispatched outcome.1)).1
    = searchQuery state +:+ toLowerCase (Keys_Space Keys).
Proof.
  intros Hquery%String.eqb_neq outcome. unfold outcome, Items_handleKeyDown.
  rewrite String.eqb_refl, Hquery. simpl. split; [done|].
  unfold reduce_Search. by destruct (_ || _)%bool.
Qed.

(** X15.  A click on the button toggles the menu.  With the button not disabled:
    a click on a closed menu opens it; a click on an open menu closes it
    when the close predicate allows, and then a second click brings back
    the [menuState] there was before the first.  *)
Theorem Button_click_toggles h state (e1 e2 : Event) :
  fn_at h (shouldClose state) e1 = true →
  fn_at h (shouldClose state) e2 = true →
  let click_on s e :=
    (dispatch_all calculateActiveIndex h s
       (dispatched (Button_handleClick false false h s e))).1 in
  menuState (click_on state e1) ≠ menuState state ∧
  menuState (click_on (click_on state e1) e2) = menuState state.
Proof.
  intros H1 H2 click_on. unfold click_on, Button_handleClick.
  destruct state as [[] br ir its q a sc]; simpl in *.
  - rewrite H1. simpl. done.
  - rewrite H2. simpl. done.
Qed.

(** A disabled button never changes the state: whether React reports it
    disabled on the element or through [props.disabled], a click dispatches
    nothing. *)
Lemma Button_disabled_click h state (event : Event) issue7711 props_disabled :
  (issue7711 || props_disabled)%bool = true →
  dispatched (Button_handleClick issue7711 props_disabled h state event) = [].
Proof. unfold Button_handleClick. by destruct issue7711, props_disabled. Qed.

(** X16.  The keys of the button open the menu.  Space, Enter and ArrowDown
    dispatch OpenMenu and put off GoToItem First to the next frame, ArrowUp
    does so with GoToItem Last; in both cases the menu is Open afterwards,
    whatever it was, and the default is prevented.  No other key does
    anything. *)
Theorem Button_keys_open Keys h state key :
  let effects := Button_handleKeyDown Keys key in
  let after := (dispatch_all calculateActiveIndex h state (dispatched effects)).1 in
  if bool_decide (key ∈ [Keys_Space Keys; Keys_Enter Keys; Keys_ArrowDown Keys])
  then effects = [preventDefault; stopPropagation; dispatch OpenMenu;
                  dispatch_nextFrame (GoToItem First)] ∧ menuState after = Open
  else if bool_decide (key = Keys_ArrowUp Keys)
  then effects = [preventDefault; stopPropagation; dispatch OpenMenu;
                  dispatch_nextFrame (GoToItem Last)] ∧ menuState after = Open
  else effects = [] ∧ after = state.
Proof.
  intros effects after. unfold after, effects, Button_handleKeyDown.
  assert (menuState (reduce_OpenMenu state) = Open) as Hopen.
  { unfold reduce_OpenMenu. by destruct (decide _). }
  case_bool_decide as Hfirst.
  - assert ((String.eqb key (Keys_Space Keys) || String.eqb key (Keys_Enter Keys)
             || String.eqb key (Keys_ArrowDown Keys))%bool = true) as ->; [|done].
    rewrite !elem_of_cons in Hfirst.
    destruct Hfirst as [->|[->|[->|Hnil]]]; rewrite ?String.eqb_refl;
      rewrite ?orb_true_r; try done. by apply elem_of_nil in Hnil.
  - assert ((String.eqb key (Keys_Space Keys) || String.eqb key (Keys_Enter Keys)
             || String.eqb key (Keys_ArrowDown Keys))%bool = false) as ->.
    { rewrite !orb_false_iff. split_and!; apply String.eqb_neq; intros ->;
        apply Hfirst; in_list. }
    case_bool_decide as Hup.
    + by rewrite Hup, String.eqb_refl.
    + by apply String.eqb_neq in Hup as ->.
Qed.

(** X17.  A disabled item is inert.  Whatever the pointer, the keyboard focus or
    a click does to it, it never asks to become the active item, never
    closes the menu and never calls [onClick]: the only things its handlers
    do are preventing the default of a click and, on focus, dispatching
    GoToItem Nothing. *)
Theorem Item_disabled_inert h state (event : Event) item_id active has_onClick :
  Item_handleMove true active item_id = [] ∧
  Item_handleLeave true active = [] ∧
  Forall (λ effect, effect = preventDefault ∨ effect = dispatch (GoToItem Nothing))
    (Item_handleClick true has_onClick h state event
       ++ Item_handleFocus true item_id).
Proof.
  split_and!; [done..|]. simpl.
  apply Forall_cons; [by left|]. apply Forall_cons; [by right|].
  apply Forall_nil.
Qed.
End WidgetFacts.

(** ** Mounting *)

Section MountingFacts.
Context {Event : Type} `{!JsString}.
Variable calculateActiveIndex : Focus → Resolvers → option Z.
Implicit Types (h : @Heap Event) (state : StateDefinition).

(** X18.  The close predicate is asked the same question everywhere.  The state
    [Menu] starts with, and the state after the SetShouldClose that [Menu]
    dispatches when its [shouldClose] prop changes, both hold a predicate
    that answers as [!shouldClose || shouldClose(event)] does on the prop;
    and a [mousedown] leads to CloseMenu exactly when the menu is open, the
    target lies outside the button and the items, and that answer is true. *)
Theorem shouldClose_prop_in_sync h state (prop : option loc) menu
    (in_button in_items focusable : bool) (event : Event) :
  let initial := Menu_initialState h prop in
  let synced := stateReducer calculateActiveIndex h state (SetShouldClose prop) in
  fn_at initial.2 (shouldClose initial.1) event = prop_allows h prop event ∧
  fn_at synced.2 (shouldClose synced.1) event = prop_allows h prop event ∧
  dispatched (Menu_handleMousedown h prop menu in_button in_items focusable event)
    = if (bool_decide (menu = Open) && negb in_button && negb in_items
          && fn_at synced.2 (shouldClose synced.1) event)%bool
      then [CloseMenu] else [].
Proof.
  intros initial synced.
  assert (fn_at synced.2 (shouldClose synced.1) event = prop_allows h prop event)
    as Hsync.
  { unfold synced. simpl. unfold reduce_SetShouldClose.
    case_bool_decide as Hsame.
    - subst prop. done.
    - destruct prop as [p|]; simpl; [done|]. by rewrite fn_lookup_insert. }
  split_and!; [|done|].
  - unfold initial, Menu_initialState.
    destruct prop as [p|]; simpl; [done|]. by rewrite fn_lookup_insert.
  - rewrite Hsync. unfold Menu_handleMousedown.
    case_bool_decide; simpl; [|done].
    destruct in_button, in_items; simpl; try done.
    destruct (prop_allows h prop event); [|done].
    by destruct focusable.
Qed.



End MountingFacts.

(** ** The theorems at concrete inputs, continued *)

Section EvaluationContinued.
Import Samples Keyboard.
#[local] Existing Instance ascii_strings.

Lemma no_move_keeps_in_range : keeps_in_range no_move.
Proof. by intros focus r Hin. Qed.

Lemma UnregisterItem_unknown_id_witness :
  stateReducer no_move three.2 three.1 (UnregisterItem "z") = (three.1, three.2).
Proof.
  apply (UnregisterItem_unknown_id no_move three.2 three.1 "z").
  - intros l Hl. change (items three.1) with [0%nat; 1%nat; 2%nat] in Hl.
    repeat (apply elem_of_cons in Hl as [->|Hl]);
      [..|by apply elem_of_nil in Hl]; vm_compute; discriminate.
  - apply (bool_decide_unpack _). vm_compute. exact I.
  - exists 2%nat. reflexivity.
Defined.

Lemma RegisterItem_UnregisterItem_round_trip_witness :
  (dispatch_all no_move three.2 three.1
     [RegisterItem "d" 5%nat; UnregisterItem "d"]).1 = three.1.
Proof.
  apply (RegisterItem_UnregisterItem_round_trip no_move three.2 three.1 "d" 5%nat).
  - apply (bool_decide_unpack _). vm_compute. exact I.
  - intros l Hl. change (items three.1) with [0%nat; 1%nat; 2%nat] in Hl.
    repeat (apply elem_of_cons in Hl as [->|Hl]);
      [..|by apply elem_of_nil in Hl]; vm_compute; discriminate.
  - apply (bool_decide_unpack _). vm_compute. exact I.
  - exists 2%nat. reflexivity.
Defined.

Lemma activeItemIndex_always_in_range_witness :
  active_index_in_range (dispatch_all no_move heap_xxy init session).1.
Proof.
  apply (activeItemIndex_always_in_range no_move
           no_move_keeps_in_range
           heap_xxy 0%nat 1%nat 0%nat session).
Defined.

Lemma widgets_never_throw_witness :
  (∃ flag, Item_active heap_xxy (dispatch_all no_move heap_xxy init session).1 "b"
           = Return flag) ∧
  (Items_handleKeyDown ui_events heap_xxy
     (dispatch_all no_move heap_xxy init session).1 "Enter" ()).2 = Return ().
Proof.
  apply (widgets_never_throw no_move
           no_move_keeps_in_range
           heap_xxy 0%nat 1%nat 0%nat session heap_xxy ui_events "Enter" () "b").
Defined.

Lemma compareNumbers_strict_order_witness :
  compareNumbers (Some 1%float) (Some 3%float) = -1.
Proof.
  destruct (compareNumbers_strict_order (Some 1%float) (Some 2%float) (Some 3%float))
    as [_ Htrans].
  rewrite Htrans; [reflexivity | reflexivity | discriminate].
Defined.

Lemma compareNumbers_nan_witness :
  compareNumbers (Some nan) (Some 1%float) = 0 ∧
  compareNumbers (Some 1%float) (Some nan) = 0 ∧
  compareNumbers (Some nan) None = 1 ∧
  compareNumbers None (Some nan) = -1.
Proof. apply (compareNumbers_nan nan 1%float). reflexivity. Defined.

Lemma ui_events_distinct : distinct_keys ui_events.
Proof. apply (bool_decide_unpack _). vm_compute. exact I. Qed.

(** Escape on the open menu: the predicate of [init] allows closing. *)
Lemma Items_closing_keys_ask_shouldClose_witness :
  let outcome := Items_handleKeyDown ui_events opened.2 opened.1 "Escape" () in
  dispatched outcome.1 = [CloseMenu] ∧ preventDefault ∈ outcome.1 ∧
  menuState (dispatch_all no_move opened.2 opened.1 (dispatched outcome.1)).1
    = Closed.
Proof.
  apply (Items_closing_keys_ask_shouldClose no_move ui_events opened.2 opened.1
           "Escape" () ui_events_distinct).
  right. left. reflexivity.
Defined.

(** The key "Y" on the open menu. *)
Lemma Items_typeahead_witness :
  let outcome := Items_handleKeyDown ui_events opened.2 opened.1 "Y" () in
  outcome = ([searchDisposables_dispose; dispatch (Search "Y");
              dispatch_setTimeout ClearSearch 350], Return ()) ∧
  searchQuery (dispatch_all no_move opened.2 opened.1 (dispatched outcome.1)).1
    = "y".
Proof.
  assert (unnamed_key ui_events "Y") as Hkey.
  { apply (bool_decide_unpack _). vm_compute. exact I. }
  exact (Items_typeahead no_move ui_events opened.2 opened.1 "Y" () Hkey).
Defined.

(** Space after "x" was typed. *)
Lemma Items_Space_extends_search_witness :
  let outcome := Items_handleKeyDown ui_events typing.2 typing.1 " " () in
  outcome = ([searchDisposables_dispose; preventDefault; stopPropagation;
              dispatch (Search " ")], Return ()) ∧
  searchQuery (dispatch_all no_move typing.2 typing.1 (dispatched outcome.1)).1
    = "x ".
Proof.
  assert (searchQuery typing.1 ≠ "") as Hquery by discriminate.
  exact (Items_Space_extends_search no_move ui_events typing.2 typing.1 () Hquery).
Defined.

(** Two clicks on the button of the open menu. *)
Lemma Button_click_toggles_witness :
  let click_on s e :=
    (dispatch_all no_move opened.2 s
       (dispatched (Button_handleClick false false opened.2 s e))).1 in
  menuState (click_on opened.1 ()) ≠ menuState opened.1 ∧
  menuState (click_on (click_on opened.1 ()) ()) = menuState opened.1.
Proof.
  apply (Button_click_toggles no_move opened.2 opened.1 () ());
    reflexivity.
Defined.

End EvaluationContinued.
